(** * career-paths-node-graph: the loader, the layout engine and the serializer

    A shallow embedding of [src/network_to_3D_4.py].

    - A Python [str] is a list of Unicode code points ([list N]).
    - A Python [dict] is an association list in insertion order; assigning to
      a key that is already present keeps the key's position.
    - A Python exception is the [Raise] case of [result].
    - The [float]s of the program are left abstract behind the class
      [FloatOps]; its instance is IEEE binary64 ([PrimFloat], what CPython
      computes with).
    - The library functions [unicodedata.normalize] / [str.lower] (inside
      [normalize_key]), [float()] on a string and [random.uniform] are the
      fields of the class [Library].
    - [csv.reader] is the boundary of the model: the input of [load_network]
      is the list of records that [csv.reader] yields, or [None] when the
      path does not exist.  [csv.DictReader] itself is modelled. *)

From Stdlib Require Import List String Ascii Bool NArith ZArith Lia.
From Stdlib Require PrimFloat Uint63.
Import ListNotations.

Set Implicit Arguments.

(* ================================================================= *)
(** ** Python strings *)

Module PyStr.

Definition str := list N.

(** UTF-8 decoding, used only to write the literals of the source. *)
Fixpoint utf8_decode (bs : list N) : str :=
  match bs with
  | [] => []
  | b0 :: r0 =>
    if (b0 <? 128)%N then b0 :: utf8_decode r0
    else if (b0 <? 224)%N then
      match r0 with
      | b1 :: r1 => ((b0 - 192) * 64 + (b1 - 128))%N :: utf8_decode r1
      | [] => []
      end
    else if (b0 <? 240)%N then
      match r0 with
      | b1 :: b2 :: r2 =>
        ((b0 - 224) * 4096 + (b1 - 128) * 64 + (b2 - 128))%N :: utf8_decode r2
      | _ => []
      end
    else
      match r0 with
      | b1 :: b2 :: b3 :: r3 =>
        ((b0 - 240) * 262144 + (b1 - 128) * 4096 + (b2 - 128) * 64 + (b3 - 128))%N
          :: utf8_decode r3
      | _ => []
      end
  end.

(** [u "..."] is the Python string written with the same literal. *)
Definition u (s : string) : str :=
  utf8_decode (map N_of_ascii (list_ascii_of_string s)).

Fixpoint str_eqb (a b : str) : bool :=
  match a, b with
  | [], [] => true
  | c :: a', d :: b' => (c =? d)%N && str_eqb a' b'
  | _, _ => false
  end.

(** [str.isspace] on one character ([Py_UNICODE_ISSPACE]); the same class is
    [\s] in a [str] pattern of [re]. *)
Definition isspace (c : N) : bool :=
  ((9 <=? c) && (c <=? 13) || (28 <=? c) && (c <=? 32)
   || (c =? 133) || (c =? 160) || (c =? 5760)
   || (8192 <=? c) && (c <=? 8202)
   || (c =? 8232) || (c =? 8233) || (c =? 8239) || (c =? 8287)
   || (c =? 12288))%N.

Fixpoint lstrip (s : str) : str :=
  match s with
  | c :: s' => if isspace c then lstrip s' else s
  | [] => []
  end.

Definition rstrip (s : str) : str := rev (lstrip (rev s)).

(** [s.strip()] *)
Definition strip (s : str) : str := rstrip (lstrip s).

Fixpoint startswith (p s : str) : bool :=
  match p, s with
  | [], _ => true
  | c :: p', d :: s' => (c =? d)%N && startswith p' s'
  | _ :: _, [] => false
  end.

(** [sub in s] *)
Fixpoint contains (sub s : str) : bool :=
  startswith sub s ||
  match s with
  | [] => false
  | _ :: s' => contains sub s'
  end.

(** Truth value of a string: [''] is false. *)
Definition nonempty (s : str) : bool :=
  match s with [] => false | _ :: _ => true end.

End PyStr.
Import PyStr.

(* ================================================================= *)
(** ** Python dictionaries keyed by strings *)

Module PyDict.

Definition dict (V : Type) := list (str * V).

Fixpoint dict_get {V} (d : dict V) (k : str) : option V :=
  match d with
  | [] => None
  | (k', v) :: d' => if str_eqb k' k then Some v else dict_get d' k
  end.

(** [d[k] = v]: overwrite in place, or append a new key at the end. *)
Fixpoint dict_set {V} (d : dict V) (k : str) (v : V) : dict V :=
  match d with
  | [] => [(k, v)]
  | (k', v') :: d' =>
    if str_eqb k' k then (k', v) :: d' else (k', v') :: dict_set d' k v
  end.

(** [k in d] *)
Definition dict_mem {V} (d : dict V) (k : str) : bool :=
  match dict_get d k with Some _ => true | None => false end.

Definition keys {V} (d : dict V) : list str := map fst d.
Definition values {V} (d : dict V) : list V := map snd d.

End PyDict.
Import PyDict.

(* ================================================================= *)
(** ** Exceptions *)

Inductive exn :=
  FileNotFoundError | AttributeError | ValueError | ZeroDivisionError.

Inductive result (A : Type) :=
| Ok (a : A)
| Raise (e : exn).
Arguments Ok {A} a.
Arguments Raise {A} e.

Definition bind {A B} (r : result A) (k : A -> result B) : result B :=
  match r with
  | Ok a => k a
  | Raise e => Raise e
  end.

Notation "'do' x <- r ; k" := (bind r (fun x => k))
  (at level 10, x pattern, r at level 100, k at level 200).

(* ================================================================= *)
(** ** [emoji_to_num] *)

Definition fam_map : dict Z :=
  [ (u "🏆 Profissional", 5); (u "🏆", 5);
    (u "💪 Confiante", 4); (u "💪", 4);
    (u "📚 Familiar", 3); (u "📚", 3);
    (u "🌱 Iniciante", 2); (u "🌱", 2);
    (u "❓ Desconhecida", 1); (u "❓", 1) ]%Z.

Definition int_map : dict Z :=
  [ (u "⭐", 5); (u "🔥", 4); (u "👍", 3); (u "😐", 2); (u "🤷", 1) ]%Z.

(** [for key in m: if key in s: return m[key]] *)
Fixpoint scan_keys (m : dict Z) (s : str) : option Z :=
  match m with
  | [] => None
  | (key, v) :: m' => if contains key s then Some v else scan_keys m' s
  end.

(** A cell of a row is a string, or [None] when the row is too short. *)
Definition emoji_to_num (emoji_str : option str) : Z :=
  match emoji_str with
  | None => 0
  | Some [] => 0
  | Some raw =>
    let s := strip raw in
    match dict_get fam_map s with
    | Some v => v
    | None =>
      match dict_get int_map s with
      | Some v => v
      | None =>
        match scan_keys fam_map s with
        | Some v => v
        | None =>
          match scan_keys int_map s with
          | Some v => v
          | None => 0
          end
        end
      end
    end
  end%Z.

(* ================================================================= *)
(** ** The regular expression of [parse_relations]

    A backtracking matcher with the priorities of [re]: greedy repetitions
    try the longest run first, lazy ones the shortest, alternatives are tried
    from left to right.  [match_here its s] is the rest of [s] after the
    first successful path of the pattern [its] started at the head of [s]. *)

Module Re.

Inductive item :=
| Cls (p : N -> bool)        (* one character of a class *)
| PlusG (p : N -> bool)      (* c+  *)
| StarG (p : N -> bool)      (* c*  *)
| StarL (p : N -> bool)      (* c*? *)
| AltLit (alts : list str)   (* (lit|lit|...) *)
| EndAnchor.                 (* $ without MULTILINE *)

Fixpoint star_greedy (p : N -> bool) (k : str -> option str) (s : str)
  : option str :=
  match s with
  | c :: s' =>
    if p c then
      match star_greedy p k s' with
      | Some r => Some r
      | None => k s
      end
    else k s
  | [] => k s
  end.

Fixpoint star_lazy (p : N -> bool) (k : str -> option str) (s : str)
  : option str :=
  match k s with
  | Some r => Some r
  | None =>
    match s with
    | c :: s' => if p c then star_lazy p k s' else None
    | [] => None
    end
  end.

Fixpoint alt_lit (alts : list str) (k : str -> option str) (s : str)
  : option str :=
  match alts with
  | [] => None
  | a :: alts' =>
    if startswith a s then
      match k (skipn (List.length a) s) with
      | Some r => Some r
      | None => alt_lit alts' k s
      end
    else alt_lit alts' k s
  end.

Fixpoint match_here (its : list item) : str -> option str :=
  match its with
  | [] => fun s => Some s
  | it :: rest =>
    let k := match_here rest in
    match it with
    | Cls p => fun s =>
        match s with
        | c :: s' => if p c then k s' else None
        | [] => None
        end
    | PlusG p => fun s =>
        match s with
        | c :: s' => if p c then star_greedy p k s' else None
        | [] => None
        end
    | StarG p => star_greedy p k
    | StarL p => star_lazy p k
    | AltLit alts => alt_lit alts k
    | EndAnchor => fun s =>
        match s with
        | [] => k s
        | [c] => if (c =? 10)%N then k s else None
        | _ => None
        end
    end
  end.

(** [re.sub(pattern, '', s)]: every leftmost non-overlapping match is
    deleted.  [skip] counts the characters of the current match that are
    still to be dropped. *)
Fixpoint sub_delete (its : list item) (s : str) (skip : nat) : str :=
  match s with
  | [] => []
  | c :: s' =>
    match skip with
    | S n => sub_delete its s' n
    | O =>
      match match_here its s with
      | Some r =>
        match (List.length s - List.length r)%nat with
        | O => c :: sub_delete its s' 0
        | S n => sub_delete its s' n
        end
      | None => c :: sub_delete its s' 0
      end
    end
  end.

Definition chr (c : string) : N -> bool :=
  fun x => match u c with [d] => (x =? d)%N | _ => false end.

(** [\s+\([^()]*%.*?\.(csv|md)\)\s*$] with [re.DOTALL] *)
Definition url_annotation : list item :=
  [ PlusG isspace; Cls (chr "(");
    StarG (fun c => negb (chr "(" c || chr ")" c)); Cls (chr "%");
    StarL (fun _ => true); Cls (chr "."); AltLit [u "csv"; u "md"];
    Cls (chr ")"); StarG isspace; EndAnchor ].

End Re.

(* ================================================================= *)
(** ** [parse_relations] *)

(** The scanner's state: [targets], [current], [paren_depth]. *)
Fixpoint scan_relations (raw : str) (targets : list str) (current : str)
  (paren_depth : Z) : list str * str :=
  match raw with
  | [] => (targets, current)
  | char :: raw' =>
    if Re.chr "(" char then
      scan_relations raw' targets (current ++ [char]) (paren_depth + 1)
    else if Re.chr ")" char then
      scan_relations raw' targets (current ++ [char]) (paren_depth - 1)
    else if (Re.chr "," char && (paren_depth =? 0)%Z) then
      scan_relations raw'
        (if nonempty (strip current) then targets ++ [strip current]
         else targets)
        [] paren_depth
    else
      scan_relations raw' targets (current ++ [char]) paren_depth
  end.

Definition clean_target (target : str) : str :=
  strip (Re.sub_delete Re.url_annotation target 0).

Definition parse_relations (raw_str : str) : list str :=
  let '(targets, current) := scan_relations raw_str [] [] 0 in
  let targets :=
    if nonempty (strip current) then targets ++ [strip current] else targets in
  filter nonempty (map clean_target targets).

(* ================================================================= *)
(** ** Numbers *)

(** The [float] operations the program uses.  [of_int] is the conversion of
    a Python [int] met in mixed arithmetic. *)
Class FloatOps (F : Type) := {
  fadd : F -> F -> F;
  fsub : F -> F -> F;
  fmul : F -> F -> F;
  fdiv : F -> F -> F;
  fsqrt : F -> F;
  of_int : Z -> F
}.

Declare Scope fl_scope.
Delimit Scope fl_scope with fl.
Infix "+!" := fadd (at level 50, left associativity) : fl_scope.
Infix "-!" := fsub (at level 50, left associativity) : fl_scope.
Infix "*!" := fmul (at level 40, left associativity) : fl_scope.
Infix "/!" := fdiv (at level 40, left associativity) : fl_scope.
Local Open Scope fl_scope.

(** What the program takes from the libraries [unicodedata], [str],
    [float] and [random]. *)
Class Library (F : Type) := {
  (** [unicodedata.normalize('NFKD', s)] with the combining marks removed *)
  unicode_fold : str -> str;
  (** [s.lower()] *)
  lower : str -> str;
  (** [float(s)] for a non-empty string; [None] is [ValueError] *)
  parse_float : str -> option F;
  (** the successive results of [random.uniform(-10, 10)] *)
  uniform : nat -> F
}.

(* ================================================================= *)
(** ** Data model *)

(** A node dictionary.  The keys ['req_direct'] and ['dep_direct'] are added
    at the end of [load_network]; they hold 0 until then. *)
Record node (F : Type) := Node {
  n_name : str;
  n_familiarity : option str;
  n_familiarity_num : Z;
  n_interest : option str;
  n_interest_num : Z;
  n_market : option str;
  n_market_num : Z;
  n_req_score : F;
  n_master_score : F;
  n_req_indirect : F;
  n_dep_indirect : F;
  n_x : F;
  n_y : F;
  n_z : F;
  n_req_direct : Z;
  n_dep_direct : Z
}.

Record edge := Edge { e_source : str; e_target : str }.

Definition edge_is (source target : str) (e : edge) : bool :=
  str_eqb (e_source e) source && str_eqb (e_target e) target.

(* ================================================================= *)
(** ** [csv.DictReader] *)

(** A row dictionary: every field name is a key; the value is [None]
    ([restval]) where the record is shorter than the header. *)
Definition row := dict (option str).

(** [dict(zip(fieldnames, record))] followed by
    [for key in fieldnames[len(record):]: d[key] = None].  Cells beyond the
    header are stored under the key [None], which the program never reads. *)
Fixpoint zip_row (fieldnames : list str) (record : list str) (d : row) : row :=
  match fieldnames, record with
  | h :: fs, c :: cs => zip_row fs cs (dict_set d h (Some c))
  | h :: fs, [] => zip_row fs [] (dict_set d h None)
  | [], _ => d
  end.

Definition is_blank (record : list str) : bool :=
  match record with [] => true | _ :: _ => false end.

(** The first record is the header; blank records after it are skipped. *)
Definition fieldnames (records : list (list str)) : list str :=
  match records with
  | [] => []
  | h :: _ => h
  end.

Definition dict_rows (records : list (list str)) : list row :=
  match records with
  | [] => []
  | h :: rest =>
    map (fun r => zip_row h r []) (filter (fun r => negb (is_blank r)) rest)
  end.

(** [row.get(key, '')] *)
Definition row_get (r : row) (key : str) : option str :=
  match dict_get r key with
  | Some v => v
  | None => Some []
  end.

(** [a or b] on the results of [header_map.get]. *)
Definition or_else (a b : option str) : option str :=
  match a with
  | Some (_ :: _) => a
  | _ => b
  end.

(* ================================================================= *)
(** ** [load_network] *)

Section Loader.
Context {F : Type} {FO : FloatOps F} {L : Library F}.

Definition normalize_key (s : str) : str := lower (strip (unicode_fold s)).

Fixpoint build_header_map (hs : list str) (header_map : dict str) : dict str :=
  match hs with
  | [] => header_map
  | h :: hs' => build_header_map hs' (dict_set header_map (normalize_key h) h)
  end.

Record score_keys := ScoreKeys {
  req_score_key : option str;
  master_score_key : option str;
  req_indirect_key : option str;
  dep_indirect_key : option str
}.

(** [for norm_key, actual_key in header_map.items(): if ... elif ...] *)
Fixpoint find_score_keys (items : dict str) (ks : score_keys) : score_keys :=
  match items with
  | [] => ks
  | (norm_key, actual_key) :: items' =>
    find_score_keys items'
      (if contains (u "requirement score") norm_key
          || contains (u "req score") norm_key
       then ScoreKeys (Some actual_key) (master_score_key ks)
              (req_indirect_key ks) (dep_indirect_key ks)
       else if contains (u "master") norm_key && contains (u "score") norm_key
       then ScoreKeys (req_score_key ks) (Some actual_key)
              (req_indirect_key ks) (dep_indirect_key ks)
       else if contains (u "req") norm_key && contains (u "indirect") norm_key
       then ScoreKeys (req_score_key ks) (master_score_key ks)
              (Some actual_key) (dep_indirect_key ks)
       else if contains (u "dep") norm_key && contains (u "indirect") norm_key
       then ScoreKeys (req_score_key ks) (master_score_key ks)
              (req_indirect_key ks) (Some actual_key)
       else ks)
  end.

(** The resolved columns. *)
Record columns := Columns {
  name_key : option str;
  deps_key : option str;
  reqs_key : option str;
  fam_key : option str;
  int_key : option str;
  mkt_key : option str;
  scores : score_keys
}.

(** [header_map.get(normalize_key('...'))] *)
Definition header_get (header_map : dict str) (s : string) : option str :=
  dict_get header_map (normalize_key (u s)).

Definition resolve_columns (hs : list str) : columns :=
  let m := build_header_map hs [] in
  Columns
    (or_else (header_get m "Nome da Área/Habilidade")
             (header_get m "Nome da Area/Habilidade"))
    (or_else (header_get m "Depende de...") (header_get m "Depende de"))
    (or_else (header_get m "Requerido por...") (header_get m "Requerido por"))
    (header_get m "Grau de Familiaridade")
    (header_get m "Interesse")
    (or_else (header_get m "Relevância no Mercado")
             (header_get m "Relevancia no Mercado"))
    (find_score_keys m (ScoreKeys None None None None)).

(** [row.get(key, '').strip() if key else '']: [None.strip()] raises. *)
Definition get_stripped (r : row) (key : option str) : result str :=
  match key with
  | Some (c :: k) =>
    match row_get r (c :: k) with
    | Some s => Ok (strip s)
    | None => Raise AttributeError
    end
  | _ => Ok []
  end.

(** [row.get(key, '') if key else ''] *)
Definition get_raw (r : row) (key : option str) : option str :=
  match key with
  | Some (c :: k) => row_get r (c :: k)
  | _ => Some []
  end.

(** The value left in a score field: 0, or
    [float(row.get(key, 0) or 0)] unless that raises [ValueError]. *)
Definition get_score (r : row) (key : option str) : F :=
  match key with
  | Some (c :: k) =>
    match dict_get r (c :: k) with
    | Some (Some (d :: s)) =>
      match parse_float (d :: s) with
      | Some v => v
      | None => of_int 0
      end
    | _ => of_int 0
    end
  | _ => of_int 0
  end.

(** The state of the first pass. *)
Record load_state := LoadState {
  nodes : dict (node F);
  temp_dependencies : dict str;
  temp_requirements : dict str;
  drawn : nat  (* how many random numbers were drawn *)
}.

(** [temp[name] = raw] when the column exists and the cell is not empty. *)
Definition store_relation (r : row) (key : option str) (name : str)
  (temp : dict str) : result (dict str) :=
  match key with
  | Some (c :: k) =>
    do raw <- get_stripped r key;
    Ok (if nonempty raw then dict_set temp name raw else temp)
  | _ => Ok temp
  end.

(** The body of [for row in reader]. *)
Definition load_row (cols : columns) (st : load_state) (r : row)
  : result load_state :=
  do name <- get_stripped r (name_key cols);
  if negb (nonempty name) then Ok st
  else
    let fam_raw := get_raw r (fam_key cols) in
    let int_raw := get_raw r (int_key cols) in
    let mkt_raw := get_raw r (mkt_key cols) in
    let k := drawn st in
    let n :=
      Node name
        fam_raw (emoji_to_num fam_raw)
        int_raw (emoji_to_num int_raw)
        mkt_raw (emoji_to_num mkt_raw)
        (get_score r (req_score_key (scores cols)))
        (get_score r (master_score_key (scores cols)))
        (get_score r (req_indirect_key (scores cols)))
        (get_score r (dep_indirect_key (scores cols)))
        (uniform k) (uniform (k + 1)) (uniform (k + 2))
        0 0 in
    do deps <- store_relation r (deps_key cols) name (temp_dependencies st);
    do reqs <- store_relation r (reqs_key cols) name (temp_requirements st);
    Ok (LoadState (dict_set (nodes st) name n) deps reqs (k + 3)).

Fixpoint load_rows (cols : columns) (st : load_state) (rows : list row)
  : result load_state :=
  match rows with
  | [] => Ok st
  | r :: rows' =>
    do st' <- load_row cols st r;
    load_rows cols st' rows'
  end.

(** The inner loop of "Process dependencies": every target that is a node
    gives the edge target -> source_name. *)
Fixpoint add_dependencies (nodes : dict (node F)) (source_name : str)
  (targets : list str) (edges : list edge) : list edge :=
  match targets with
  | [] => edges
  | target_name :: ts =>
    add_dependencies nodes source_name ts
      (if dict_mem nodes target_name
       then edges ++ [Edge target_name source_name]
       else edges)
  end.

Fixpoint process_dependencies (nodes : dict (node F)) (items : dict str)
  (edges : list edge) : list edge :=
  match items with
  | [] => edges
  | (source_name, deps_raw) :: items' =>
    process_dependencies nodes items'
      (add_dependencies nodes source_name (parse_relations deps_raw) edges)
  end.

(** The inner loop of "Process requirements": every target that is a node
    gives the edge source_name -> target, unless the list has it already. *)
Fixpoint add_requirements (nodes : dict (node F)) (source_name : str)
  (targets : list str) (edges : list edge) : list edge :=
  match targets with
  | [] => edges
  | target_name :: ts =>
    add_requirements nodes source_name ts
      (if dict_mem nodes target_name
       then
         if negb (existsb (edge_is source_name target_name) edges)
         then edges ++ [Edge source_name target_name]
         else edges
       else edges)
  end.

Fixpoint process_requirements (nodes : dict (node F)) (items : dict str)
  (edges : list edge) : list edge :=
  match items with
  | [] => edges
  | (source_name, reqs_raw) :: items' =>
    process_requirements nodes items'
      (add_requirements nodes source_name (parse_relations reqs_raw) edges)
  end.

(** [sum(1 for e in edges if e[field] == name)] *)
Definition count_edges (field : edge -> str) (name : str) (edges : list edge)
  : Z :=
  Z.of_nat (List.length (filter (fun e => str_eqb (field e) name) edges)).

Definition set_direct (edges : list edge) (n : node F) : node F :=
  Node (n_name n)
    (n_familiarity n) (n_familiarity_num n)
    (n_interest n) (n_interest_num n)
    (n_market n) (n_market_num n)
    (n_req_score n) (n_master_score n) (n_req_indirect n) (n_dep_indirect n)
    (n_x n) (n_y n) (n_z n)
    (count_edges e_source (n_name n) edges)
    (count_edges e_target (n_name n) edges).

(** The edges built by the second pass from the state of the first. *)
Definition build_edges (st : load_state) : list edge :=
  process_requirements (nodes st) (temp_requirements st)
    (process_dependencies (nodes st) (temp_dependencies st) []).

(** The first pass over an existing file. *)
Definition first_pass (records : list (list str)) : result load_state :=
  load_rows (resolve_columns (fieldnames records)) (LoadState [] [] [] 0)
    (dict_rows records).

(** [load_network(csv_file)]: [None] is a path that does not exist,
    [Some records] a file in which [csv.reader] reads [records]. *)
Definition load_network (csv_file : option (list (list str)))
  : result (list (node F) * list edge) :=
  match csv_file with
  | None => Raise FileNotFoundError
  | Some records =>
    do st <- first_pass records;
    let edges := build_edges st in
    Ok (map (set_direct edges) (values (nodes st)), edges)
  end.

End Loader.

(* ================================================================= *)
(** ** [apply_layout] *)

Section Layout.
Context {F : Type} {FO : FloatOps F}.

Definition ITERATIONS : nat := 100.
Definition SPRING_LENGTH : F := of_int 3.          (* 3.0 *)
Definition REPULSION_STRENGTH : F := of_int 50.    (* 50.0 *)

(** The decimal literal [n/d], for [0.1], [0.01], [0.7] and [0.3]: the
    quotient of two small integers, rounded once. *)
Definition lit (n d : Z) : F := of_int n /! of_int d.

(** Assignment to the keys ['x'], ['y'], ['z'] of a node. *)
Definition set_pos (n : node F) (x y z : F) : node F :=
  Node (n_name n)
    (n_familiarity n) (n_familiarity_num n)
    (n_interest n) (n_interest_num n)
    (n_market n) (n_market_num n)
    (n_req_score n) (n_master_score n) (n_req_indirect n) (n_dep_indirect n)
    x y z
    (n_req_direct n) (n_dep_direct n).

(** [nodes[i] = n]; nothing happens out of range (the program only writes
    through references it took from the list). *)
Fixpoint update {A} (l : list A) (i : nat) (a : A) : list A :=
  match l, i with
  | [], _ => []
  | _ :: l', O => a :: l'
  | b :: l', S i' => b :: update l' i' a
  end.

(** [math.sqrt(dx*dx + dy*dy + dz*dz) + 0.1] *)
Definition floored_dist (dx dy dz : F) : F :=
  fsqrt (dx *! dx +! dy *! dy +! dz *! dz) +! lit 1 10.

(** The inner loop of the repulsion pass for the node [n1] of index [i];
    [j] is the index of the head of [others]. *)
Fixpoint repulsion_force (i : nat) (n1 : node F) (others : list (node F))
  (j : nat) (f : F * F * F) : F * F * F :=
  match others with
  | [] => f
  | n2 :: rest =>
    repulsion_force i n1 rest (S j)
      (if Nat.eqb i j then f
       else
         let '(fx, fy, fz) := f in
         let dx := n_x n1 -! n_x n2 in
         let dy := n_y n1 -! n_y n2 in
         let dz := n_z n1 -! n_z n2 in
         let dist := floored_dist dx dy dz in
         let force := REPULSION_STRENGTH /! (dist *! dist) in
         (fx +! (dx /! dist) *! force,
          fy +! (dy /! dist) *! force,
          fz +! (dz /! dist) *! force))
  end.

(** One turn of the outer loop: the node of index [i] is moved in place, so
    that the nodes after it see its new position. *)
Definition repulsion_step (ns : list (node F)) (i : nat) : list (node F) :=
  match nth_error ns i with
  | None => ns
  | Some n1 =>
    let '(fx, fy, fz) :=
      repulsion_force i n1 ns 0 (of_int 0, of_int 0, of_int 0) in
    update ns i
      (set_pos n1
         (n_x n1 +! fx *! lit 1 100)
         (n_y n1 +! fy *! lit 1 100)
         (n_z n1 +! fz *! lit 1 100))
  end.

Definition repulsion_pass (ns : list (node F)) : list (node F) :=
  fold_left repulsion_step (seq 0 (List.length ns)) ns.

(** [next((n for n in nodes if n['name'] == name), None)], with the index
    of the node found. *)
Fixpoint find_node (name : str) (ns : list (node F)) (i : nat)
  : option (nat * node F) :=
  match ns with
  | [] => None
  | n :: ns' =>
    if str_eqb (n_name n) name then Some (i, n) else find_node name ns' (S i)
  end.

(** The body of [for edge in edges].  The target is read again after the
    source was written: both are the same dictionary on a self-loop. *)
Definition spring_step (ns : list (node F)) (e : edge) : list (node F) :=
  match find_node (e_source e) ns 0, find_node (e_target e) ns 0 with
  | Some (si, source), Some (ti, target) =>
    let dx := n_x target -! n_x source in
    let dy := n_y target -! n_y source in
    let dz := n_z target -! n_z source in
    let dist := floored_dist dx dy dz in
    let force := (dist -! SPRING_LENGTH) *! lit 1 10 in
    let fx := (dx /! dist) *! force in
    let fy := (dy /! dist) *! force in
    let fz := (dz /! dist) *! force in
    let ns1 :=
      update ns si
        (set_pos source (n_x source +! fx) (n_y source +! fy)
           (n_z source +! fz)) in
    match nth_error ns1 ti with
    | Some target1 =>
      update ns1 ti
        (set_pos target1 (n_x target1 -! fx) (n_y target1 -! fy)
           (n_z target1 -! fz))
    | None => ns1
    end
  | _, _ => ns
  end.

Definition spring_pass (ns : list (node F)) (edges : list edge)
  : list (node F) :=
  fold_left spring_step edges ns.

(** The body of [for _ in range(ITERATIONS)]. *)
Definition layout_iteration (edges : list edge) (ns : list (node F))
  : list (node F) :=
  spring_pass (repulsion_pass ns) edges.

(** [apply_layout(nodes, edges, layout_type)]: the contents of the two
    lists when the call returns. *)
Definition apply_layout (nodes : list (node F)) (edges : list edge)
  (layout_type : str) : list (node F) * list edge :=
  if str_eqb layout_type (u "force")
  then (Nat.iter ITERATIONS (layout_iteration edges) nodes, edges)
  else (nodes, edges).


End Layout.

(* ================================================================= *)
(** ** [export_json] *)

Section Serializer.
Context {F : Type} {FO : FloatOps F}.

(** The keys [export_json] adds to a node. *)
Record metrics := Metrics {
  network_centrality : Z;
  foundation_efficiency : F;
  total_connections : Z;
  connection_influence : F
}.

Record metadata := Metadata {
  md_layout : str;
  md_iterations : nat;
  md_spring_length : F;
  md_repulsion_strength : F;
  md_total_nodes : nat;
  md_total_edges : nat
}.

(** The object given to [json.dump]. *)
Record document := Document {
  doc_nodes : list (node F * metrics);
  doc_edges : list edge;
  doc_metadata : metadata
}.

Definition LAYOUT : str := u "force".

(** [max(g)] of a generator: [ValueError] when it yields nothing. *)
Definition py_max (zs : list Z) : result Z :=
  match zs with
  | [] => Raise ValueError
  | z :: zs' => Ok (fold_left Z.max zs' z)
  end.

(** [max(n['req_direct'] for n in nodes if n['req_direct'] > 0)] *)
Definition max_req_direct (nodes : list (node F)) : result Z :=
  py_max (filter (fun r => (0 <? r)%Z) (map (@n_req_direct F) nodes)).

(** The body of [for node in nodes].  The division of two integers is
    [ZeroDivisionError] when the divisor is 0. *)
Definition node_metrics (nodes : list (node F)) (n : node F)
  : result metrics :=
  let req := n_req_direct n in
  let dep := n_dep_direct n in
  if (1 + dep =? 0)%Z then Raise ZeroDivisionError
  else
    let efficiency := of_int req /! of_int (1 + dep) in
    do influence <-
      match nodes with
      | [] => Ok (of_int 0)
      | _ :: _ =>
        do m <- max_req_direct nodes;
        Ok ((of_int req *! lit 7 10 +! of_int dep *! lit 3 10)
              /! of_int (Z.max 1 m))
      end;
    Ok (Metrics (req * dep)%Z efficiency (req + dep)%Z influence).

Fixpoint all_metrics (nodes rest : list (node F))
  : result (list (node F * metrics)) :=
  match rest with
  | [] => Ok []
  | n :: rest' =>
    do m <- node_metrics nodes n;
    do ms <- all_metrics nodes rest';
    Ok ((n, m) :: ms)
  end.

Definition export_json (nodes : list (node F)) (edges : list edge)
  : result document :=
  do ns <- all_metrics nodes nodes;
  Ok (Document ns edges
        (Metadata LAYOUT ITERATIONS SPRING_LENGTH REPULSION_STRENGTH
           (List.length nodes) (List.length edges))).

End Serializer.

(* ================================================================= *)
(** ** Instances *)

(** IEEE 754 binary64, the [float] of CPython: [+ - * /] and [math.sqrt]
    are correctly rounded. *)
Module Binary64.

Definition of_Z (z : Z) : PrimFloat.float :=
  match z with
  | Z0 => PrimFloat.zero
  | Zpos _ => PrimFloat.of_uint63 (Uint63.of_Z z)
  | Zneg p => PrimFloat.opp (PrimFloat.of_uint63 (Uint63.of_Z (Zpos p)))
  end.

#[export] Instance ops : FloatOps PrimFloat.float := {
  fadd := PrimFloat.add;
  fsub := PrimFloat.sub;
  fmul := PrimFloat.mul;
  fdiv := PrimFloat.div;
  fsqrt := PrimFloat.sqrt;
  of_int := of_Z
}.

End Binary64.

(** The library functions on the strings of the examples: ASCII and the
    accented letters of Latin-1, on which they agree with CPython. *)
Module Latin1.

(** NFKD without the combining marks: an accented Latin-1 letter becomes
    its base letter. *)
Definition fold_char (c : N) : N :=
  (if (192 <=? c) && (c <=? 197) then 65          (* À..Å -> A *)
   else if c =? 199 then 67                        (* Ç -> C *)
   else if (200 <=? c) && (c <=? 203) then 69     (* È..Ë -> E *)
   else if (204 <=? c) && (c <=? 207) then 73     (* Ì..Ï -> I *)
   else if c =? 209 then 78                        (* Ñ -> N *)
   else if (210 <=? c) && (c <=? 214) then 79     (* Ò..Ö -> O *)
   else if (217 <=? c) && (c <=? 220) then 85     (* Ù..Ü -> U *)
   else if c =? 221 then 89                        (* Ý -> Y *)
   else if (224 <=? c) && (c <=? 229) then 97     (* à..å -> a *)
   else if c =? 231 then 99                        (* ç -> c *)
   else if (232 <=? c) && (c <=? 235) then 101    (* è..ë -> e *)
   else if (236 <=? c) && (c <=? 239) then 105    (* ì..ï -> i *)
   else if c =? 241 then 110                       (* ñ -> n *)
   else if (242 <=? c) && (c <=? 246) then 111    (* ò..ö -> o *)
   else if (249 <=? c) && (c <=? 252) then 117    (* ù..ü -> u *)
   else if (c =? 253) || (c =? 255) then 121       (* ý, ÿ -> y *)
   else c)%N.

Definition lower_char (c : N) : N :=
  (if (65 <=? c) && (c <=? 90) then c + 32
   else if (192 <=? c) && (c <=? 222) && negb (c =? 215) then c + 32
   else c)%N.

(** [float(s)] on a string of decimal digits. *)
Fixpoint digits (s : str) (acc : Z) : option Z :=
  match s with
  | [] => Some acc
  | c :: s' =>
    if ((48 <=? c) && (c <=? 57))%N
    then digits s' (10 * acc + Z.of_N (c - 48))
    else None
  end.

Definition library {F} {FO : FloatOps F} : Library F := {|
  unicode_fold := map fold_char;
  lower := map lower_char;
  parse_float := fun s =>
    match strip s with
    | [] => None
    | t => option_map of_int (digits t 0)
    end;
  uniform := fun _ => of_int 0
|}.

End Latin1.

(* ================================================================= *)
(** ** Sample inputs *)

Module Samples.
Import Binary64.

Definition float := PrimFloat.float.

(** The loader on binary64 numbers with the Latin-1 library functions. *)
Definition load (csv_file : option (list (list str)))
  : result (list (node float) * list edge) :=
  @load_network float Binary64.ops (@Latin1.library float Binary64.ops)
    csv_file.

Definition loaded_edges (r : result (list (node float) * list edge))
  : option (list edge) :=
  match r with
  | Ok (_, edges) => Some edges
  | Raise _ => None
  end.

(** Name, required-by count and depends-on count of every node. *)
Definition loaded_counts (r : result (list (node float) * list edge))
  : option (list (str * Z * Z)) :=
  match r with
  | Ok (ns, _) =>
    Some (map (fun n => (n_name n, n_req_direct n, n_dep_direct n)) ns)
  | Raise _ => None
  end.

(** [B] lists [A] twice in its depends-on cell:
<<
Nome da Area/Habilidade,Depende de
A,
B,"A, A"
>> *)
Definition csv_repeated_target : option (list (list str)) :=
  Some [ [u "Nome da Area/Habilidade"; u "Depende de"];
         [u "A"; u ""];
         [u "B"; u "A, A"] ].

(** A record shorter than the header:
<<
Nome da Area/Habilidade,Depende de
X
>> *)
Definition csv_short_row : option (list (list str)) :=
  Some [ [u "Nome da Area/Habilidade"; u "Depende de"];
         [u "X"] ].

(** One node and no relation:
<<
Nome da Area/Habilidade
A
>> *)
Definition csv_single_node : option (list (list str)) :=
  Some [ [u "Nome da Area/Habilidade"]; [u "A"] ].

(** The name [A] on two rows, the relation cell of the last one empty:
<<
Nome da Area/Habilidade,Depende de,Requerido por,Interesse
B,,,
A,B,,⭐
A,,,🔥
>> *)
Definition csv_repeated_name : list (list str) :=
  [ [u "Nome da Area/Habilidade"; u "Depende de"; u "Requerido por";
     u "Interesse"];
    [u "B"; u ""; u ""; u ""];
    [u "A"; u "B"; u ""; u "⭐"];
    [u "A"; u ""; u ""; u "🔥"] ].

(** A node that holds only a name and a position. *)
Definition at_pos {F} {FO : FloatOps F} (name : str) (x y z : F) : node F :=
  Node name None 0 None 0 None 0
    (of_int 0) (of_int 0) (of_int 0) (of_int 0) x y z 0 0.


(** The same nodes 3.0 apart. *)
Definition pair_3 : list (node float) :=
  [ at_pos (u "A") (Binary64.of_Z 0) (Binary64.of_Z 0) (Binary64.of_Z 0);
    at_pos (u "B") (Binary64.of_Z 3) (Binary64.of_Z 0) (Binary64.of_Z 0) ].

Definition edge_AB : list edge := [Edge (u "A") (u "B")].













(** The first pass on binary64 numbers with the Latin-1 library functions. *)
Definition pass1 (records : list (list str)) : result (@load_state float) :=
  @first_pass float Binary64.ops (@Latin1.library float Binary64.ops) records.

Definition empty_state : @load_state float := LoadState [] [] [] 0.

(** The state in which the first pass leaves [csv_repeated_name]. *)
Definition state_repeated_name : @load_state float :=
  Eval vm_compute in
    match pass1 csv_repeated_name with
    | Ok st => st
    | Raise _ => empty_state
    end.

(** What the loader returns on [csv_repeated_name]. *)
Definition nodes_repeated_name : list (node float) :=
  Eval vm_compute in
    match load (Some csv_repeated_name) with
    | Ok (ns, _) => ns
    | Raise _ => []
    end.

Definition edges_repeated_name : list edge :=
  Eval vm_compute in
    match load (Some csv_repeated_name) with
    | Ok (_, edges) => edges
    | Raise _ => []
    end.

(** What the loader returns on [csv_single_node]. *)
Definition nodes_single_node : list (node float) :=
  Eval vm_compute in
    match load csv_single_node with
    | Ok (ns, _) => ns
    | Raise _ => []
    end.


(** Records as long as the header or longer, and a blank one. *)
Definition header_two : list str :=
  [u "Nome da Area/Habilidade"; u "Depende de"].

Definition records_full : list (list str) :=
  [ [u "A"; u ""]; []; [u "B"; u "A"; u "more"] ].

(** Three nodes and an edge to a name that is no node. *)
Definition three_nodes : list (node float) :=
  [ at_pos (u "A") (Binary64.of_Z 0) (Binary64.of_Z 0) (Binary64.of_Z 0);
    at_pos (u "B") (Binary64.of_Z 1) (Binary64.of_Z 0) (Binary64.of_Z 0);
    at_pos (u "C") (Binary64.of_Z 5) (Binary64.of_Z 2) (Binary64.of_Z 0) ].

Definition edge_to_nowhere : edge := Edge (u "A") (u "Z").

End Samples.

(* ================================================================= *)
(** ** Notions used in the statements *)

Section Notions.
Context {F : Type} {FO : FloatOps F} {L : Library F}.

(** The edges that the depends-on texts stand for: for every name [N] and
    every target [T] of its text that is a node, in order, the edge
    [T -> N]. *)
Definition dependency_edges (ns : dict (node F)) (items : dict str)
  : list edge :=
  flat_map
    (fun item : str * str =>
       map (fun T => Edge T (fst item))
         (filter (dict_mem ns) (parse_relations (snd item))))
    items.

(** [e] is [N -> T] for a name [N] and a target [T] of its required-by
    text that is a node. *)
Definition from_requirement (ns : dict (node F)) (items : dict str) (e : edge)
  : Prop :=
  exists raw,
    In (e_source e, raw) items
    /\ In (e_target e) (parse_relations raw)
    /\ dict_mem ns (e_target e) = true.

(** The stripped text of a cell; [''] when the column or the cell is
    missing. *)
Definition stripped_cell (r : row) (key : option str) : str :=
  match get_stripped r key with
  | Ok s => s
  | Raise _ => []
  end.

(** The row gives a node called [name]. *)
Definition named (cols : columns) (name : str) (r : row) : bool :=
  nonempty name && str_eqb (stripped_cell r (name_key cols)) name.

Definition last_opt {A} (l : list A) : option A :=
  fold_left (fun _ a => Some a) l None.

(** The last non-empty cell of the column [key] among the rows that are
    named [name]. *)
Definition last_nonempty_cell (cols : columns) (key : option str) (name : str)
  (rows : list row) : option str :=
  last_opt
    (filter nonempty
       (map (fun r => stripped_cell r key) (filter (named cols name) rows))).

(** The last row named [name]. *)
Definition last_row (cols : columns) (name : str) (rows : list row)
  : option row :=
  last_opt (filter (named cols name) rows).

(** The attributes of a node that are read from its row. *)
Definition row_attributes (n : node F) :=
  (n_familiarity n, n_familiarity_num n, n_interest n, n_interest_num n,
   n_market n, n_market_num n,
   n_req_score n, n_master_score n, n_req_indirect n, n_dep_indirect n).

(** The same attributes computed from a row. *)
Definition attributes_of_row (cols : columns) (r : row) :=
  (get_raw r (fam_key cols), emoji_to_num (get_raw r (fam_key cols)),
   get_raw r (int_key cols), emoji_to_num (get_raw r (int_key cols)),
   get_raw r (mkt_key cols), emoji_to_num (get_raw r (mkt_key cols)),
   get_score r (req_score_key (scores cols)),
   get_score r (master_score_key (scores cols)),
   get_score r (req_indirect_key (scores cols)),
   get_score r (dep_indirect_key (scores cols))).

(** The invariant of the first pass: a node is stored under its name, and
    every name that has a relation text has a node. *)
Definition consistent (st : @load_state F) : Prop :=
  (forall k n, In (k, n) (nodes st) -> n_name n = k)
  /\ (forall k, dict_mem (temp_dependencies st) k = true ->
        dict_mem (nodes st) k = true)
  /\ (forall k, dict_mem (temp_requirements st) k = true ->
        dict_mem (nodes st) k = true).

(** No cell of the row is missing. *)
Definition full (r : row) : Prop :=
  forall k v, In (k, v) r -> v <> None.

(** Everything of a node but its position. *)
Definition non_position (n : node F) :=
  (n_name n, row_attributes n, n_req_direct n, n_dep_direct n).

End Notions.

(* ================================================================= *)
(** ** [export_obj] and the main program *)

Section Geometry.
Context {F : Type} {FO : FloatOps F} {L : Library F}.

(** A line of the OBJ file; the numbers are kept, not their six-decimal
    text. *)
Inductive obj_line :=
| Title                       (* # Career Skills Network *)
| Counts (n_nodes n_edges : nat)
| Blank
| Vertex (x y z : F)          (* v x y z *)
| Segment (src tgt : nat).    (* l src tgt *)

(** [{n['name']: i+1 for i, n in enumerate(nodes)}]; [i] is the index of the
    head of [nodes].  A name met again takes the later index. *)
Fixpoint build_node_map (nodes : list (node F)) (i : nat) (m : dict nat)
  : dict nat :=
  match nodes with
  | [] => m
  | n :: rest => build_node_map rest (S i) (dict_set m (n_name n) (S i))
  end.

(** The body of [for edge in edges]: a line when both indices are found
    (and are not 0). *)
Definition edge_line (node_map : dict nat) (e : edge) : list obj_line :=
  match dict_get node_map (e_source e), dict_get node_map (e_target e) with
  | Some (S s), Some (S t) => [Segment (S s) (S t)]
  | _, _ => []
  end.

(** The lines [export_obj(nodes, edges, output_file)] writes. *)
Definition export_obj (nodes : list (node F)) (edges : list edge)
  : list obj_line :=
  [Title; Counts (List.length nodes) (List.length edges); Blank]
  ++ map (fun n => Vertex (n_x n) (n_y n) (n_z n)) nodes
  ++ [Blank]
  ++ flat_map (edge_line (build_node_map nodes 0 [])) edges.

(** The program: load, lay out, export twice.  The result is what is
    written to the two files. *)
Definition main (csv_file : option (list (list str)))
  : result (@document F * list obj_line) :=
  do loaded <- load_network csv_file;
  let laid := apply_layout (fst loaded) (snd loaded) LAYOUT in
  do doc <- export_json (fst laid) (snd laid);
  Ok (doc, export_obj (fst laid) (snd laid)).

End Geometry.

(* ================================================================= *)
(** ** Notions used in the further statements *)

(** Splitting at every comma, without any regard to parentheses. *)
Fixpoint split_commas (s current : str) : list str :=
  match s with
  | [] => [current]
  | c :: s' =>
    if Re.chr "," c then current :: split_commas s' []
    else split_commas s' (current ++ [c])
  end.

(** The text has no parenthesis. *)
Definition no_paren (s : str) : Prop :=
  Forall (fun c => Re.chr "(" c = false /\ Re.chr ")" c = false) s.

(** The sum of a count over the nodes. *)
Definition total_count {F} (count : node F -> Z) (ns : list (node F)) : Z :=
  fold_right Z.add 0%Z (map count ns).

(* ================================================================= *)
(** * Properties *)

(* ================================================================= *)
(** ** Strings and dictionaries *)

Lemma str_eqb_eq (a b : str) : str_eqb a b = true <-> a = b.
Proof.
  revert b; induction a as [|c a IH]; intros [|d b]; simpl;
    try (split; (reflexivity || discriminate)).
  rewrite andb_true_iff, N.eqb_eq, IH.
  split; [intros [-> ->]; reflexivity | intros H; inversion H; auto].
Qed.

Lemma str_eqb_refl (a : str) : str_eqb a a = true.
Proof. apply str_eqb_eq; reflexivity. Qed.

Lemma str_eqb_neq (a b : str) : str_eqb a b = false <-> a <> b.
Proof.
  rewrite <- str_eqb_eq. destruct (str_eqb a b); split; congruence.
Qed.

Lemma dict_get_set {V} (d : dict V) k v k' :
  dict_get (dict_set d k v) k' = if str_eqb k k' then Some v else dict_get d k'.
Proof.
  induction d as [|[k0 v0] d IH]; simpl; [reflexivity|].
  destruct (str_eqb k0 k) eqn:E; simpl.
  - apply str_eqb_eq in E; subst k0. destruct (str_eqb k k'); reflexivity.
  - rewrite IH. destruct (str_eqb k0 k') eqn:E'; [|reflexivity].
    apply str_eqb_eq in E'. destruct (str_eqb k k') eqn:E2; [|reflexivity].
    apply str_eqb_eq in E2. rewrite E', E2, str_eqb_refl in E. discriminate.
Qed.

Lemma dict_mem_set {V} (d : dict V) k v k' :
  dict_mem (dict_set d k v) k' = str_eqb k k' || dict_mem d k'.
Proof.
  unfold dict_mem. rewrite dict_get_set. destruct (str_eqb k k'); reflexivity.
Qed.

Lemma In_dict_set {V} (d : dict V) k v k' v' :
  In (k', v') (dict_set d k v) -> (k' = k /\ v' = v) \/ In (k', v') d.
Proof.
  induction d as [|[k0 v0] d IH]; simpl.
  - intros [H|[]]; inversion H; auto.
  - destruct (str_eqb k0 k) eqn:E; simpl.
    + apply str_eqb_eq in E; subst k0.
      intros [H|H]; [inversion H|]; auto.
    + intros [H|H]; auto. destruct (IH H); auto.
Qed.

Lemma In_dict_mem {V} (d : dict V) k v : In (k, v) d -> dict_mem d k = true.
Proof.
  unfold dict_mem. induction d as [|[k0 v0] d IH]; simpl; [tauto|].
  intros [H|H].
  - inversion H; subst. rewrite str_eqb_refl. reflexivity.
  - destruct (str_eqb k0 k); auto.
Qed.

Lemma dict_mem_keys {V} (d : dict V) k : dict_mem d k = true -> In k (keys d).
Proof.
  unfold dict_mem, keys. induction d as [|[k0 v0] d IH]; simpl; [discriminate|].
  destruct (str_eqb k0 k) eqn:E; auto.
  apply str_eqb_eq in E; auto.
Qed.

Lemma dict_mem_In {V} (d : dict V) k :
  dict_mem d k = true -> exists v, In (k, v) d.
Proof.
  unfold dict_mem. induction d as [|[k0 v0] d IH]; simpl; [discriminate|].
  destruct (str_eqb k0 k) eqn:E.
  - apply str_eqb_eq in E; subst. eauto.
  - intros H. destruct (IH H) as [v Hv]. eauto.
Qed.

Lemma existsb_edge_is (s t : str) (edges : list edge) :
  existsb (edge_is s t) edges = true <-> In (Edge s t) edges.
Proof.
  rewrite existsb_exists. split.
  - intros [[s' t'] [Hin H]]. unfold edge_is in H; simpl in H.
    apply andb_true_iff in H as [H1 H2].
    apply str_eqb_eq in H1, H2. subst. exact Hin.
  - intros H. exists (Edge s t). split; [exact H|].
    unfold edge_is; simpl. rewrite !str_eqb_refl. reflexivity.
Qed.

(* ================================================================= *)
(** ** The relation parser and the rating scale *)

(** C7: on ["A, B (foo%20bar.csv), C(x, y)"] the relation parser returns
    exactly ["A"], ["B"], ["C(x, y)"]: the comma inside the parentheses
    does not separate, and the annotation is removed from the second
    candidate only. *)
Theorem parse_relations_example :
  parse_relations (u "A, B (foo%20bar.csv), C(x, y)")
  = [u "A"; u "B"; u "C(x, y)"].
Proof. vm_compute. reflexivity. Qed.

(** The candidates before cleaning: only the second one carries the
    annotation, and cleaning leaves the other two as they are. *)
Lemma parse_relations_example_cleaning :
  clean_target (u "A") = u "A"
  /\ clean_target (u "B (foo%20bar.csv)") = u "B"
  /\ clean_target (u "C(x, y)") = u "C(x, y)".
Proof. vm_compute. auto. Qed.

(** C8: the rating scale gives 5 for ["🏆 Profissional"] (an exact key), 0
    for ["???"], and 4 for ["something 🔥 something"], which no key equals
    and which contains the key ["🔥"]. *)
Theorem emoji_to_num_examples :
  emoji_to_num (Some (u "🏆 Profissional")) = 5%Z
  /\ emoji_to_num (Some (u "???")) = 0%Z
  /\ emoji_to_num (Some (u "something 🔥 something")) = 4%Z
  /\ dict_get fam_map (strip (u "something 🔥 something")) = None
  /\ dict_get int_map (strip (u "something 🔥 something")) = None
  /\ scan_keys fam_map (strip (u "something 🔥 something")) = None
  /\ scan_keys int_map (strip (u "something 🔥 something")) = Some 4%Z.
Proof. vm_compute. repeat split. Qed.

(* ================================================================= *)
(** ** The second pass of the loader *)

Section SecondPass.
Context {F : Type}.
Implicit Types (ns : dict (node F)) (items : dict str) (edges : list edge).

Lemma add_dependencies_app ns N targets edges :
  add_dependencies ns N targets edges
  = edges ++ map (fun T => Edge T N) (filter (dict_mem ns) targets).
Proof.
  revert edges; induction targets as [|T ts IH]; intros edges; simpl.
  - rewrite app_nil_r. reflexivity.
  - rewrite IH. destruct (dict_mem ns T); simpl; [|reflexivity].
    rewrite <- app_assoc. reflexivity.
Qed.

Lemma process_dependencies_app ns items edges :
  process_dependencies ns items edges = edges ++ dependency_edges ns items.
Proof.
  revert edges; induction items as [|[N raw] items IH]; intros edges; simpl.
  - rewrite app_nil_r. reflexivity.
  - rewrite IH, add_dependencies_app, <- app_assoc. reflexivity.
Qed.

Lemma In_dependency_edges ns items e :
  In e (dependency_edges ns items) <->
  exists raw,
    In (e_target e, raw) items
    /\ In (e_source e) (parse_relations raw)
    /\ dict_mem ns (e_source e) = true.
Proof.
  unfold dependency_edges. rewrite in_flat_map. split.
  - intros [[N raw] [Hin He]]. simpl in He.
    apply in_map_iff in He as [T [<- HT]]. apply filter_In in HT as [HT Hm].
    simpl. eauto.
  - intros [raw [Hin [HT Hm]]]. exists (e_target e, raw). split; [exact Hin|].
    simpl. apply in_map_iff. exists (e_source e). split.
    + destruct e; reflexivity.
    + apply filter_In; auto.
Qed.

(** What the inner loop of the requirement pass appends. *)
Lemma add_requirements_spec ns N targets edges :
  exists added,
    add_requirements ns N targets edges = edges ++ added
    /\ NoDup added
    /\ (forall e, In e added ->
          ~ In e edges /\ e_source e = N /\ In (e_target e) targets
          /\ dict_mem ns (e_target e) = true)
    /\ (forall T, In T targets -> dict_mem ns T = true ->
          In (Edge N T) (edges ++ added)).
Proof.
  revert edges; induction targets as [|T ts IH]; intros edges; simpl.
  - exists []. rewrite app_nil_r. split; [reflexivity|].
    split; [constructor|]. split; simpl; tauto.
  - destruct (dict_mem ns T) eqn:Hm;
      [destruct (existsb (edge_is N T) edges) eqn:Hex; simpl|].
    + (* the pair is in the list already *)
      apply existsb_edge_is in Hex.
      destruct (IH edges) as [added [Heq [Hnd [Hnew Hall]]]].
      exists added. repeat split; auto; try (apply Hnew; assumption).
      * right. apply Hnew; assumption.
      * intros T' [<-|HT'] Hm'; [apply in_or_app; auto | auto].
    + (* a new pair *)
      assert (Hnin : ~ In (Edge N T) edges).
      { intros H. apply existsb_edge_is in H. congruence. }
      destruct (IH (edges ++ [Edge N T])) as [added [Heq [Hnd [Hnew Hall]]]].
      exists (Edge N T :: added). rewrite Heq, <- app_assoc. simpl.
      split; [reflexivity|]. split; [|split].
      * constructor; [|exact Hnd].
        intros H. apply Hnew in H as [H _]. apply H, in_or_app. simpl; auto.
      * intros e [<-|He]; simpl.
        { repeat split; auto. }
        { destruct (Hnew e He) as [H1 [H2 [H3 H4]]]. repeat split; auto.
          intros H. apply H1, in_or_app; auto. }
      * intros T' [<-|HT'] Hm'.
        { apply in_or_app. right. simpl; auto. }
        { specialize (Hall T' HT' Hm'). rewrite <- app_assoc in Hall.
          exact Hall. }
    + (* an unknown target *)
      destruct (IH edges) as [added [Heq [Hnd [Hnew Hall]]]].
      exists added. repeat split; auto; try (apply Hnew; assumption).
      * right. apply Hnew; assumption.
      * intros T' [<-|HT'] Hm'; [congruence | auto].
Qed.

(** What the requirement pass appends to the list it starts from. *)
Lemma process_requirements_spec ns items edges :
  exists added,
    process_requirements ns items edges = edges ++ added
    /\ NoDup added
    /\ (forall e, In e added -> ~ In e edges /\ from_requirement ns items e)
    /\ (forall N raw T, In (N, raw) items -> In T (parse_relations raw) ->
          dict_mem ns T = true -> In (Edge N T) (edges ++ added)).
Proof.
  revert edges; induction items as [|[N raw] items IH]; intros edges; simpl.
  - exists []. rewrite app_nil_r. split; [reflexivity|].
    split; [constructor|]. split; simpl; tauto.
  - destruct (add_requirements_spec ns N (parse_relations raw) edges)
      as [a1 [Heq1 [Hnd1 [Hnew1 Hall1]]]].
    rewrite Heq1.
    destruct (IH (edges ++ a1)) as [a2 [Heq2 [Hnd2 [Hnew2 Hall2]]]].
    exists (a1 ++ a2). rewrite Heq2, <- app_assoc.
    split; [reflexivity|]. split; [|split].
    + apply NoDup_app; auto.
      intros e H1 H2. apply Hnew2 in H2 as [H2 _].
      apply H2, in_or_app; auto.
    + intros e He. apply in_app_or in He as [He|He].
      * destruct (Hnew1 e He) as [H1 [H2 [H3 H4]]]. split; [exact H1|].
        exists raw. rewrite H2. simpl; auto.
      * destruct (Hnew2 e He) as [H1 [raw' [H2 [H3 H4]]]]. split.
        { intros H. apply H1, in_or_app; auto. }
        { exists raw'. simpl; auto. }
    + intros N' raw' T [Heq|Hin] HT Hm.
      * inversion Heq; subst N' raw'.
        specialize (Hall1 T HT Hm). rewrite app_assoc.
        apply in_or_app; auto.
      * specialize (Hall2 N' raw' T Hin HT Hm).
        rewrite <- app_assoc in Hall2. exact Hall2.
Qed.

(** C4: the second pass.  The depends-on texts give, for every name [N] and
    every target [T] of its text that resolves to a node, the edge [T -> N];
    the required-by texts then give, for every name [N] and every resolved
    target [T], the edge [N -> T], which is appended only when the list does
    not hold that ordered pair yet (so the appended edges are pairwise
    distinct and none of them repeats an earlier edge). *)
Theorem second_pass_edges (st : @load_state F) :
  exists added,
    build_edges st
    = dependency_edges (nodes st) (temp_dependencies st) ++ added
    /\ (forall N raw T,
          In (N, raw) (temp_dependencies st) ->
          In T (parse_relations raw) ->
          dict_mem (nodes st) T = true ->
          In (Edge T N) (dependency_edges (nodes st) (temp_dependencies st)))
    /\ (forall N raw T,
          In (N, raw) (temp_requirements st) ->
          In T (parse_relations raw) ->
          dict_mem (nodes st) T = true ->
          In (Edge N T) (build_edges st))
    /\ NoDup added
    /\ (forall e, In e added ->
          ~ In e (dependency_edges (nodes st) (temp_dependencies st))
          /\ from_requirement (nodes st) (temp_requirements st) e).
Proof.
  unfold build_edges. rewrite process_dependencies_app. simpl.
  destruct (process_requirements_spec (nodes st) (temp_requirements st)
              (dependency_edges (nodes st) (temp_dependencies st)))
    as [added [Heq [Hnd [Hnew Hall]]]].
  exists added. rewrite Heq. repeat split; auto; try (apply Hnew; assumption).
  intros N raw T Hin HT Hm. apply In_dependency_edges. simpl. eauto.
Qed.

(** X18: the requirement pass never creates a duplicate: the final edge
    list repeats an ordered pair exactly when the edges of the dependency
    pass did. *)
Lemma build_edges_NoDup_iff (st : @load_state F) :
  NoDup (build_edges st)
  <-> NoDup (dependency_edges (nodes st) (temp_dependencies st)).
Proof.
  unfold build_edges. rewrite process_dependencies_app. simpl.
  destruct (process_requirements_spec (nodes st) (temp_requirements st)
              (dependency_edges (nodes st) (temp_dependencies st)))
    as [added [Heq [Hnd [Hnew _]]]].
  rewrite Heq. split.
  - intros H. apply NoDup_app_remove_r in H. exact H.
  - intros H. apply NoDup_app; auto.
    intros e H1 H2. apply Hnew in H2 as [H2 _]. auto.
Qed.

End SecondPass.

(* ================================================================= *)
(** ** The first pass of the loader *)

Section FirstPass.
Context {F : Type} {FO : FloatOps F} {L : Library F}.

Lemma bind_Ok {A B} (r : result A) (k : A -> result B) (b : B) :
  bind r k = Ok b -> exists a, r = Ok a /\ k a = Ok b.
Proof. destruct r; simpl; [eauto | discriminate]. Qed.

Lemma store_relation_Ok (r : row) key name temp temp' :
  store_relation r key name temp = Ok temp' ->
  temp' = if nonempty (stripped_cell r key)
          then dict_set temp name (stripped_cell r key)
          else temp.
Proof.
  unfold store_relation, stripped_cell.
  destruct key as [[|c k]|]; simpl; try (intros H; inversion H; reflexivity).
  destruct (row_get r (c :: k)); simpl; intros H; inversion H; reflexivity.
Qed.

(** One row either is skipped (no name) or writes one node and at most one
    text in each temporary dictionary. *)
Lemma load_row_Ok cols (st : @load_state F) (r : row) st' :
  load_row cols st r = Ok st' ->
  let nm := stripped_cell r (name_key cols) in
  (nm = [] /\ st' = st)
  \/ (nonempty nm = true
      /\ exists n,
          n_name n = nm
          /\ row_attributes n = attributes_of_row cols r
          /\ nodes st' = dict_set (nodes st) nm n
          /\ temp_dependencies st'
             = (if nonempty (stripped_cell r (deps_key cols))
                then dict_set (temp_dependencies st) nm
                       (stripped_cell r (deps_key cols))
                else temp_dependencies st)
          /\ temp_requirements st'
             = (if nonempty (stripped_cell r (reqs_key cols))
                then dict_set (temp_requirements st) nm
                       (stripped_cell r (reqs_key cols))
                else temp_requirements st)).
Proof.
  unfold load_row. intros H.
  apply bind_Ok in H as [nm [Hnm H]].
  assert (Hc : stripped_cell r (name_key cols) = nm)
    by (unfold stripped_cell; rewrite Hnm; reflexivity).
  cbv zeta. rewrite Hc. clear Hc.
  destruct (nonempty nm) eqn:Hne; simpl in H.
  - right. split; [reflexivity|].
    apply bind_Ok in H as [deps [Hdeps H]].
    apply bind_Ok in H as [reqs [Hreqs H]].
    inversion H; subst st'; clear H. simpl.
    apply store_relation_Ok in Hdeps, Hreqs.
    eexists; repeat apply conj;
      [ | | reflexivity | exact Hdeps | exact Hreqs ]; reflexivity.
  - left. destruct nm; [|discriminate]. inversion H; auto.
Qed.

Lemma load_rows_app cols (st : @load_state F) (a b : list row) :
  load_rows cols st (a ++ b)
  = bind (load_rows cols st a) (fun st' => load_rows cols st' b).
Proof.
  revert st; induction a as [|r a IH]; intros st; simpl; [reflexivity|].
  destruct (load_row cols st r); simpl; auto.
Qed.

Lemma load_row_consistent cols (st : @load_state F) r st' :
  load_row cols st r = Ok st' -> consistent st -> consistent st'.
Proof.
  intros H [Hn [Hd Hr]]. apply load_row_Ok in H. simpl in H.
  destruct H as [[_ ->]|[_ [n [Hname [_ [Hnodes [Hdeps Hreqs]]]]]]].
  { repeat split; assumption. }
  unfold consistent. rewrite Hnodes, Hdeps, Hreqs. split; [|split].
  - intros k n' Hin. apply In_dict_set in Hin as [[-> ->]|Hin]; auto.
  - intros k. rewrite dict_mem_set.
    destruct (nonempty (stripped_cell r (deps_key cols)));
      [rewrite dict_mem_set|]; intros Hk.
    + apply orb_true_iff in Hk as [Hk|Hk]; [rewrite Hk; reflexivity|].
      rewrite (Hd k Hk). apply orb_true_r.
    + rewrite (Hd k Hk). apply orb_true_r.
  - intros k. rewrite dict_mem_set.
    destruct (nonempty (stripped_cell r (reqs_key cols)));
      [rewrite dict_mem_set|]; intros Hk.
    + apply orb_true_iff in Hk as [Hk|Hk]; [rewrite Hk; reflexivity|].
      rewrite (Hr k Hk). apply orb_true_r.
    + rewrite (Hr k Hk). apply orb_true_r.
Qed.

Lemma load_rows_consistent cols (rows : list row) (st st' : @load_state F) :
  load_rows cols st rows = Ok st' -> consistent st -> consistent st'.
Proof.
  revert st; induction rows as [|r rows IH]; intros st; simpl.
  - intros H; inversion H; auto.
  - intros H Hc. apply bind_Ok in H as [st1 [H1 H2]].
    eapply IH; [exact H2|]. eapply load_row_consistent; eauto.
Qed.

Lemma first_pass_consistent records (st : @load_state F) :
  first_pass records = Ok st -> consistent st.
Proof.
  intros H. eapply load_rows_consistent; [exact H|].
  repeat split; simpl; try tauto; discriminate.
Qed.

Lemma consistent_names (st : @load_state F) edges :
  consistent st ->
  map (@n_name F) (map (set_direct edges) (values (nodes st)))
  = keys (nodes st).
Proof.
  intros [Hn _]. unfold values, keys. rewrite !map_map. simpl.
  revert Hn. induction (nodes st) as [|[k n] d IH]; simpl; intros Hn.
  - reflexivity.
  - f_equal; [apply Hn; auto | apply IH; intros; apply Hn; auto].
Qed.

(** Both ends of every edge of the second pass are names of nodes. *)
Lemma build_edges_closed (st : @load_state F) e :
  consistent st -> In e (build_edges st) ->
  dict_mem (nodes st) (e_source e) = true
  /\ dict_mem (nodes st) (e_target e) = true.
Proof.
  intros [_ [Hd Hr]]. unfold build_edges.
  rewrite process_dependencies_app. simpl.
  destruct (process_requirements_spec (nodes st) (temp_requirements st)
              (dependency_edges (nodes st) (temp_dependencies st)))
    as [added [-> [_ [Hnew _]]]].
  intros He. apply in_app_or in He as [He|He].
  - apply In_dependency_edges in He as [raw [Hin [_ Hm]]].
    split; [exact Hm|]. eapply Hd, In_dict_mem; eauto.
  - apply Hnew in He as [_ [raw [Hin [_ Hm]]]].
    split; [|exact Hm]. eapply Hr, In_dict_mem; eauto.
Qed.

(** C5: graph closure.  Whenever the loader returns, both the source and
    the target of every returned edge are names of returned nodes; a target
    that is not a node gives no edge. *)
Theorem load_network_closure csv_file (ns : list (node F)) edges :
  load_network csv_file = Ok (ns, edges) ->
  forall e, In e edges ->
    In (e_source e) (map (@n_name F) ns)
    /\ In (e_target e) (map (@n_name F) ns).
Proof.
  unfold load_network. destruct csv_file as [records|]; [|discriminate].
  intros H. apply bind_Ok in H as [st [Hst H]]. inversion H; subst; clear H.
  pose proof (first_pass_consistent _ Hst) as Hc.
  intros e He. rewrite consistent_names by exact Hc.
  destruct (build_edges_closed e Hc He) as [H1 H2].
  split; apply dict_mem_keys; assumption.
Qed.

(** The loader raises nothing but [FileNotFoundError], for a missing file,
    and [AttributeError], for [None.strip()]. *)
Lemma get_stripped_raises (r : row) key e :
  get_stripped r key = Raise e -> e = AttributeError.
Proof.
  unfold get_stripped. destruct key as [[|c k]|]; try discriminate.
  destruct (row_get r (c :: k)); [discriminate|]. congruence.
Qed.

Lemma store_relation_raises (r : row) key name temp e :
  store_relation r key name temp = Raise e -> e = AttributeError.
Proof.
  unfold store_relation, get_stripped.
  destruct key as [[|c k]|]; try discriminate.
  destruct (row_get r (c :: k)); simpl; [discriminate|]. congruence.
Qed.

Lemma load_row_raises cols (st : @load_state F) r e :
  load_row cols st r = Raise e -> e = AttributeError.
Proof.
  unfold load_row.
  destruct (get_stripped r (name_key cols)) as [nm|e0] eqn:E0; simpl.
  2:{ intros H; inversion H; subst. eapply get_stripped_raises; eauto. }
  destruct (nonempty nm); simpl; [|discriminate].
  destruct (store_relation r (deps_key cols) nm (temp_dependencies st))
    eqn:E1; simpl.
  2:{ intros H; inversion H; subst. eapply store_relation_raises; eauto. }
  destruct (store_relation r (reqs_key cols) nm (temp_requirements st))
    eqn:E2; simpl; [discriminate|].
  intros H; inversion H; subst. eapply store_relation_raises; eauto.
Qed.

Lemma load_rows_raises cols rows (st : @load_state F) e :
  load_rows cols st rows = Raise e -> e = AttributeError.
Proof.
  revert st; induction rows as [|r rows IH]; intros st; simpl; [discriminate|].
  destruct (load_row cols st r) eqn:E; simpl; [apply IH|].
  intros H; inversion H; subst. eapply load_row_raises; eauto.
Qed.

(** X10: the loader raises the not-found error exactly when the file does
    not exist; nothing that happens while the rows of an existing file are
    read raises it. *)
Lemma load_network_not_found csv_file :
  @load_network F FO L csv_file = Raise FileNotFoundError <-> csv_file = None.
Proof.
  unfold load_network, first_pass. destruct csv_file as [records|].
  - split; [|discriminate].
    destruct (load_rows _ _ _) eqn:E; simpl; [discriminate|].
    intros H; inversion H; subst. apply load_rows_raises in E. discriminate.
  - split; reflexivity.
Qed.

Lemma dict_get_In {V} (d : dict V) k v : dict_get d k = Some v -> In (k, v) d.
Proof.
  induction d as [|[k0 v0] d IH]; simpl; [discriminate|].
  destruct (str_eqb k0 k) eqn:E; auto.
  apply str_eqb_eq in E. intros H; inversion H; subst. auto.
Qed.

Lemma zip_row_full (h : list str) (record : list str) (d : row) :
  (List.length h <= List.length record)%nat -> full d ->
  full (zip_row h record d).
Proof.
  revert record d; induction h as [|k h IH]; intros record d Hlen Hd; simpl.
  - exact Hd.
  - destruct record as [|c cs]; simpl in Hlen; [lia|].
    apply IH; [lia|].
    intros k' v' Hin. apply In_dict_set in Hin as [[_ ->]|Hin];
      [discriminate | eapply Hd; eauto].
Qed.

Lemma get_stripped_full (r : row) key :
  full r -> exists s, get_stripped r key = Ok s.
Proof.
  intros Hr. unfold get_stripped, row_get.
  destruct key as [[|c k]|]; eauto.
  destruct (dict_get r (c :: k)) as [[s|]|] eqn:E; eauto.
  apply dict_get_In in E. exfalso. eapply Hr; eauto.
Qed.

Lemma store_relation_full (r : row) key name temp :
  full r -> exists temp', store_relation r key name temp = Ok temp'.
Proof.
  intros Hr. unfold store_relation. destruct key as [[|c k]|]; eauto.
  destruct (get_stripped_full (Some (c :: k)) Hr) as [s Hs].
  unfold get_stripped in Hs |- *. rewrite Hs. simpl. eauto.
Qed.

Lemma load_rows_full cols (rows : list row) (st : @load_state F) :
  Forall full rows -> exists st', load_rows cols st rows = Ok st'.
Proof.
  intros H; revert st; induction H as [|r rows Hr _ IH]; intros st; simpl.
  - eauto.
  - assert (Hrow : exists st1, load_row cols st r = Ok st1).
    { unfold load_row.
      destruct (get_stripped_full (name_key cols) Hr) as [nm ->]. simpl.
      destruct (nonempty nm); simpl; eauto.
      destruct (store_relation_full (deps_key cols) nm (temp_dependencies st) Hr)
        as [deps ->].
      destruct (store_relation_full (reqs_key cols) nm (temp_requirements st) Hr)
        as [reqs ->].
      simpl. eauto. }
    destruct Hrow as [st1 ->]. simpl. apply IH.
Qed.

(** X11: on the records that [csv.reader] has yielded (the file was opened,
    decoded and parsed): when every record after the header is blank or
    has at least as many cells as the header, the row loop and the second
    pass raise nothing and the loader returns nodes and edges. *)
Lemma load_network_full_rows (header : list str) (records : list (list str)) :
  (forall record, In record records ->
     record = [] \/ (List.length header <= List.length record)%nat) ->
  exists ns edges,
    @load_network F FO L (Some (header :: records)) = Ok (ns, edges).
Proof.
  intros H. unfold load_network, first_pass.
  destruct (@load_rows_full (resolve_columns (fieldnames (header :: records)))
              (dict_rows (header :: records)) (LoadState [] [] [] 0))
    as [st ->]; [|simpl; eauto].
  simpl. apply Forall_forall. intros r Hr.
  apply in_map_iff in Hr as [record [<- Hin]].
  apply filter_In in Hin as [Hin Hnb].
  destruct (H record Hin) as [->|Hlen]; [discriminate|].
  apply zip_row_full; [exact Hlen|]. intros k v [].
Qed.

Lemma last_opt_snoc {A} (l : list A) (a : A) : last_opt (l ++ [a]) = Some a.
Proof. unfold last_opt. rewrite fold_left_app. reflexivity. Qed.

Lemma named_empty cols name (r : row) :
  stripped_cell r (name_key cols) = [] -> named cols name r = false.
Proof.
  unfold named. intros ->. destruct name; reflexivity.
Qed.

Lemma named_eqb cols name (r : row) :
  nonempty (stripped_cell r (name_key cols)) = true ->
  named cols name r = str_eqb (stripped_cell r (name_key cols)) name.
Proof.
  unfold named. intros H.
  destruct (str_eqb (stripped_cell r (name_key cols)) name) eqn:E.
  - apply str_eqb_eq in E. rewrite <- E, H. reflexivity.
  - apply andb_false_r.
Qed.

(** The lookup of a temporary dictionary after one more row. *)
Lemma lookup_step (temp : dict str) nm cell name (l : list str) :
  dict_get temp name = last_opt (filter nonempty l) ->
  dict_get (if nonempty cell then dict_set temp nm cell else temp) name
  = last_opt
      (filter nonempty (l ++ (if str_eqb nm name then [cell] else []))).
Proof.
  intros IH. rewrite filter_app.
  destruct (str_eqb nm name) eqn:E; simpl.
  - destruct (nonempty cell) eqn:Hc.
    + rewrite dict_get_set, E, last_opt_snoc. reflexivity.
    + rewrite app_nil_r. exact IH.
  - rewrite app_nil_r. destruct (nonempty cell); [|exact IH].
    rewrite dict_get_set, E. exact IH.
Qed.

Lemma load_rows_lookup cols (rows : list row) (st : @load_state F) :
  load_rows cols (LoadState [] [] [] 0) rows = Ok st ->
  forall name,
    dict_get (temp_dependencies st) name
    = last_nonempty_cell cols (deps_key cols) name rows
    /\ dict_get (temp_requirements st) name
       = last_nonempty_cell cols (reqs_key cols) name rows
    /\ option_map row_attributes (dict_get (nodes st) name)
       = option_map (attributes_of_row cols) (last_row cols name rows).
Proof.
  revert st; induction rows as [|r rows IH] using rev_ind; intros st H name.
  { inversion H; subst. repeat split. }
  rewrite load_rows_app in H. apply bind_Ok in H as [st1 [H1 H2]].
  simpl in H2. apply bind_Ok in H2 as [st2 [H2 H3]].
  inversion H3; subst st2; clear H3.
  destruct (IH st1 H1 name) as [IHd [IHr IHn]].
  unfold last_nonempty_cell, last_row in *.
  rewrite !filter_app, !map_app. simpl.
  apply load_row_Ok in H2. cbv zeta in H2.
  destruct H2 as [[Hnm ->]|[Hne [n [Hname [Hattr [Hnodes [Hdeps Hreqs]]]]]]].
  - rewrite (named_empty cols name r Hnm). simpl. rewrite !app_nil_r.
    repeat split; assumption.
  - rewrite (named_eqb cols name r Hne), Hnodes, Hdeps, Hreqs.
    split; [|split].
    + rewrite (lookup_step _ _ _ _ _ IHd).
      destruct (str_eqb _ name); reflexivity.
    + rewrite (lookup_step _ _ _ _ _ IHr).
      destruct (str_eqb _ name); reflexivity.
    + rewrite dict_get_set.
      destruct (str_eqb _ name); simpl.
      * rewrite last_opt_snoc. simpl. rewrite Hattr. reflexivity.
      * rewrite app_nil_r. exact IHn.
Qed.


End FirstPass.

(* ================================================================= *)
(** ** The loader on the sample inputs *)

Section LoaderSamples.
Import Samples Binary64.
#[local] Existing Instance Latin1.library.

Lemma load_network_closure_witness :
  load (Some csv_repeated_name)
  = Ok (nodes_repeated_name, edges_repeated_name)
  /\ edges_repeated_name = [Edge (u "B") (u "A")]
  /\ In (u "B") (map (@n_name float) nodes_repeated_name)
  /\ In (u "A") (map (@n_name float) nodes_repeated_name).
Proof.
  assert (H : load (Some csv_repeated_name)
              = Ok (nodes_repeated_name, edges_repeated_name))
    by (vm_compute; reflexivity).
  split; [exact H|]. split; [reflexivity|].
  exact (load_network_closure (Some csv_repeated_name) H
           (Edge (u "B") (u "A")) (or_introl eq_refl)).
Defined.


(** On [csv_repeated_name] the last row of [A] has an empty depends-on
    cell: the text ["B"] of the row before is kept and gives the edge
    [B -> A], while the interest of [A] is that of the last row. *)
Example repeated_name_sample :
  dict_get (temp_dependencies state_repeated_name) (u "A") = Some (u "B")
  /\ option_map (@n_interest float)
       (dict_get (nodes state_repeated_name) (u "A"))
     = Some (Some (u "🔥"))
  /\ loaded_edges (load (Some csv_repeated_name))
     = Some [Edge (u "B") (u "A")].
Proof. vm_compute. repeat split. Qed.

(** C1 (fails on the code): [B] names [A] twice in its depends-on cell and
    the loader returns the edge [A -> B] twice; [A] is counted as required
    by two nodes and [B] as depending on two. *)
Theorem repeated_target_gives_duplicate_edge :
  loaded_edges (load csv_repeated_target)
  = Some [Edge (u "A") (u "B"); Edge (u "A") (u "B")]
  /\ loaded_counts (load csv_repeated_target)
     = Some [(u "A", 2%Z, 0%Z); (u "B", 0%Z, 2%Z)]
  /\ ~ NoDup [Edge (u "A") (u "B"); Edge (u "A") (u "B")].
Proof.
  split; [vm_compute; reflexivity|]. split; [vm_compute; reflexivity|].
  intros H. inversion H as [|e l Hnin Hnd]; subst. apply Hnin. left. reflexivity.
Qed.

(** C6 (fails on the code): the file exists, its only record is shorter
    than the header, and [AttributeError] leaves the loader. *)
Theorem short_row_raises_attribute_error :
  load csv_short_row = Raise AttributeError.
Proof. vm_compute. reflexivity. Qed.

End LoaderSamples.

(* ================================================================= *)
(** ** The serializer *)

Section SerializerFacts.
Context {F : Type} {FO : FloatOps F}.

(** A non-empty node list without a positive required-by count makes
    [max] of the empty sequence raise at the first node. *)
Lemma export_json_no_positive_raises (n : node F) (rest : list (node F)) edges :
  (forall m, In m (n :: rest) -> (n_req_direct m <= 0)%Z) ->
  (1 + n_dep_direct n <> 0)%Z ->
  export_json (n :: rest) edges = Raise ValueError.
Proof.
  intros Hall Hdep.
  assert (Hmax : max_req_direct (n :: rest) = Raise ValueError).
  { unfold max_req_direct.
    replace (filter (fun r => (0 <? r)%Z) (map (@n_req_direct F) (n :: rest)))
      with (@nil Z); [reflexivity|].
    symmetry. revert Hall. generalize (n :: rest) as l.
    induction l as [|m l IH]; intros Hall; simpl; [reflexivity|].
    pose proof (Hall m (or_introl eq_refl)) as Hm.
    destruct (Z.ltb_spec 0 (n_req_direct m)); [lia|].
    apply IH. intros m' Hin. apply Hall. right. exact Hin. }
  unfold export_json. simpl. unfold node_metrics.
  destruct (Z.eqb_spec (1 + n_dep_direct n) 0) as [E|_]; [contradiction|].
  rewrite Hmax. reflexivity.
Qed.

End SerializerFacts.

(** C2 (fails on the code): the loader returns one node and no edge for
    [csv_single_node]; the required-by count of the node is 0, and the
    serializer raises [ValueError] instead of giving the score 0. *)
Theorem export_json_single_node_raises :
  Samples.load Samples.csv_single_node = Ok (Samples.nodes_single_node, [])
  /\ map (@n_req_direct Samples.float) Samples.nodes_single_node = [0%Z]
  /\ @export_json Samples.float Binary64.ops Samples.nodes_single_node []
     = Raise ValueError.
Proof. vm_compute. repeat split. Qed.

(* ================================================================= *)
(** ** The layout engine writes positions only *)

Section LayoutFrame.
Context {F : Type} {FO : FloatOps F}.
Implicit Types (ns : list (node F)) (edges : list edge).

Lemma non_position_set_pos (n : node F) x y z :
  non_position (set_pos n x y z) = non_position n.
Proof. reflexivity. Qed.

Lemma map_update {A B} (f : A -> B) (l : list A) i a b :
  nth_error l i = Some b -> f a = f b -> map f (update l i a) = map f l.
Proof.
  revert i; induction l as [|c l IH]; intros [|i]; simpl; try discriminate.
  - intros H E; inversion H; subst. rewrite E. reflexivity.
  - intros H E. rewrite (IH i H E). reflexivity.
Qed.

Lemma find_node_nth name ns i j (n : node F) :
  find_node name ns i = Some (j, n) ->
  exists k, j = (i + k)%nat /\ nth_error ns k = Some n.
Proof.
  revert i; induction ns as [|m ns IH]; intros i; simpl; [discriminate|].
  destruct (str_eqb (n_name m) name).
  - intros H; inversion H; subst. exists 0%nat. split; [lia | reflexivity].
  - intros H. destruct (IH _ H) as [k [-> Hk]].
    exists (S k). split; [lia | exact Hk].
Qed.

Lemma repulsion_step_frame ns i :
  map non_position (repulsion_step ns i) = map non_position ns.
Proof.
  unfold repulsion_step. destruct (nth_error ns i) as [n1|] eqn:E; [|reflexivity].
  destruct (repulsion_force i n1 ns 0 _) as [[fx fy] fz].
  eapply map_update; [exact E | apply non_position_set_pos].
Qed.

Lemma repulsion_pass_frame ns :
  map non_position (repulsion_pass ns) = map non_position ns.
Proof.
  unfold repulsion_pass. generalize (seq 0 (List.length ns)) as idx.
  intros idx; revert ns; induction idx as [|i idx IH]; intros ns; simpl.
  - reflexivity.
  - rewrite IH. apply repulsion_step_frame.
Qed.

Lemma spring_step_frame ns e :
  map non_position (spring_step ns e) = map non_position ns.
Proof.
  unfold spring_step.
  destruct (find_node (e_source e) ns 0) as [[si source]|] eqn:Es;
    [|reflexivity].
  destruct (find_node (e_target e) ns 0) as [[ti target]|] eqn:Et;
    [|reflexivity].
  apply find_node_nth in Es as [k [-> Hk]]. simpl.
  match goal with
  | |- context [nth_error ?l ti] =>
    assert (H1 : map non_position l = map non_position ns)
      by (eapply map_update; [exact Hk | apply non_position_set_pos]);
    destruct (nth_error l ti) as [target1|] eqn:E1; [|exact H1];
    rewrite <- H1
  end.
  eapply map_update; [exact E1 | apply non_position_set_pos].
Qed.

Lemma spring_pass_frame edges ns :
  map non_position (spring_pass ns edges) = map non_position ns.
Proof.
  unfold spring_pass. revert ns; induction edges as [|e edges IH]; intros ns.
  - reflexivity.
  - simpl. rewrite IH. apply spring_step_frame.
Qed.

Lemma layout_iteration_frame edges ns :
  map non_position (layout_iteration edges ns) = map non_position ns.
Proof.
  unfold layout_iteration. rewrite spring_pass_frame.
  apply repulsion_pass_frame.
Qed.

Lemma iterate_frame edges ns (k : nat) :
  map non_position (Nat.iter k (layout_iteration edges) ns)
  = map non_position ns.
Proof.
  induction k as [|k IH]; simpl; [reflexivity|].
  rewrite layout_iteration_frame. exact IH.
Qed.

(** C9: the layout engine writes the position of the nodes and nothing
    else.  After [apply_layout], for every layout type, the node list has
    the same length, the same names in the same order and, node by node,
    the same attributes other than [x], [y], [z]; the edge list is the one
    that was given. *)
Theorem apply_layout_frame (nodes : list (node F)) edges layout_type :
  map non_position (fst (apply_layout nodes edges layout_type))
  = map non_position nodes
  /\ List.length (fst (apply_layout nodes edges layout_type))
     = List.length nodes
  /\ map (@n_name F) (fst (apply_layout nodes edges layout_type))
     = map (@n_name F) nodes
  /\ snd (apply_layout nodes edges layout_type) = edges.
Proof.
  assert (H : map non_position (fst (apply_layout nodes edges layout_type))
              = map non_position nodes).
  { unfold apply_layout. destruct (str_eqb layout_type (u "force"));
      cbn [fst]; [apply iterate_frame | reflexivity]. }
  split; [exact H|]. split; [|split].
  - rewrite <- (length_map non_position), H. apply length_map.
  - apply (f_equal (map (fun t => fst (fst (fst t))))) in H.
    rewrite !map_map in H. exact H.
  - unfold apply_layout. destruct (str_eqb layout_type (u "force")); reflexivity.
Qed.

End LayoutFrame.

(* ================================================================= *)
(** ** One iteration on two nodes joined by an edge *)


Section PairOnGrid.
Import Samples.





End PairOnGrid.

(* ================================================================= *)
(** * Further properties *)

(* ================================================================= *)
(** ** Trimming *)

Lemma lstrip_idem (s : str) : lstrip (lstrip s) = lstrip s.
Proof.
  induction s as [|c s IH]; simpl; [reflexivity|].
  destruct (isspace c) eqn:E; [exact IH|]. simpl. rewrite E. reflexivity.
Qed.

Lemma lstrip_snoc (p : str) (c : N) :
  isspace c = false -> exists q, lstrip (p ++ [c]) = q ++ [c].
Proof.
  intros Hc. induction p as [|d p IH]; simpl.
  - rewrite Hc. exists []. reflexivity.
  - destruct (isspace d); [exact IH|]. exists (d :: p). reflexivity.
Qed.

Lemma strip_idem (s : str) : strip (strip s) = strip s.
Proof.
  unfold strip, rstrip.
  destruct (lstrip s) as [|c t] eqn:El; [reflexivity|].
  assert (Hc : isspace c = false).
  { pose proof (lstrip_idem s) as H. rewrite El in H. simpl in H.
    destruct (isspace c); [|reflexivity].
    exfalso. apply (f_equal (@List.length N)) in H. simpl in H.
    assert (Hle : forall x : str, (List.length (lstrip x) <= List.length x)%nat).
    { induction x as [|d x IHx]; simpl; [lia|].
      destruct (isspace d); simpl; lia. }
    specialize (Hle t). lia. }
  simpl rev at 2.
  destruct (@lstrip_snoc (rev t) c Hc) as [q Hq]. rewrite Hq.
  rewrite rev_app_distr. simpl. rewrite Hc.
  change (c :: rev q) with ([c] ++ rev q).
  rewrite rev_app_distr, rev_involutive. simpl.
  rewrite <- Hq, lstrip_idem. reflexivity.
Qed.

(* ================================================================= *)
(** ** The rating scale *)

Lemma dict_get_values {V} (d : dict V) k v :
  dict_get d k = Some v -> In v (values d).
Proof.
  unfold values. induction d as [|[k0 v0] d IH]; simpl; [discriminate|].
  destruct (str_eqb k0 k); [intros H; inversion H; auto | auto].
Qed.

Lemma scan_keys_values (m : dict Z) s v :
  scan_keys m s = Some v -> In v (values m).
Proof.
  unfold values. induction m as [|[k0 v0] m IH]; simpl; [discriminate|].
  destruct (contains k0 s); [intros H; inversion H; auto | auto].
Qed.

Lemma fam_map_range v : In v (values fam_map) -> (1 <= v <= 5)%Z.
Proof. cbv [values fam_map map snd]. simpl. intuition lia. Qed.

Lemma int_map_range v : In v (values int_map) -> (1 <= v <= 5)%Z.
Proof. cbv [values int_map map snd]. simpl. intuition lia. Qed.

(** X1: whatever the cell holds, the number given to a rating is one of
    0, 1, 2, 3, 4, 5. *)
Theorem emoji_to_num_range (emoji_str : option str) :
  (0 <= emoji_to_num emoji_str <= 5)%Z.
Proof.
  unfold emoji_to_num. destruct emoji_str as [[|c raw]|]; try lia.
  destruct (dict_get fam_map (strip (c :: raw))) eqn:E1.
  { apply dict_get_values, fam_map_range in E1. lia. }
  destruct (dict_get int_map (strip (c :: raw))) eqn:E2.
  { apply dict_get_values, int_map_range in E2. lia. }
  destruct (scan_keys fam_map (strip (c :: raw))) eqn:E3.
  { apply scan_keys_values, fam_map_range in E3. lia. }
  destruct (scan_keys int_map (strip (c :: raw))) eqn:E4.
  { apply scan_keys_values, int_map_range in E4. lia. }
  lia.
Qed.

(** X2: white space around a rating does not change its number. *)
Theorem emoji_to_num_strip (s : str) :
  emoji_to_num (Some s) = emoji_to_num (Some (strip s)).
Proof.
  destruct s as [|c s]; [reflexivity|].
  destruct (strip (c :: s)) as [|d t] eqn:E.
  - unfold emoji_to_num. rewrite E. reflexivity.
  - unfold emoji_to_num. rewrite <- E, strip_idem. reflexivity.
Qed.

(* ================================================================= *)
(** ** The relation parser *)

(** X3: no target returned by the relation parser is empty, and none has
    white space at either end. *)
Theorem parse_relations_trimmed (raw_str target : str) :
  In target (parse_relations raw_str) ->
  nonempty target = true /\ strip target = target.
Proof.
  unfold parse_relations.
  destruct (scan_relations raw_str [] [] 0) as [targets current].
  intros H. apply filter_In in H as [H Hne]. split; [exact Hne|].
  apply in_map_iff in H as [t [<- _]].
  unfold clean_target. apply strip_idem.
Qed.

Lemma parse_relations_trimmed_witness :
  In (u "B") (parse_relations (u "A,  B (foo%20bar.csv) "))
  /\ nonempty (u "B") = true /\ strip (u "B") = u "B".
Proof.
  assert (H : In (u "B") (parse_relations (u "A,  B (foo%20bar.csv) ")))
    by (vm_compute; auto).
  split; [exact H|].
  exact (@parse_relations_trimmed (u "A,  B (foo%20bar.csv) ") (u "B") H).
Defined.

Lemma star_greedy_none (p : N -> bool) (k : str -> option str)
  (Q : N -> Prop) (s : str) :
  (forall s', Forall Q s' -> k s' = None) ->
  Forall Q s -> Re.star_greedy p k s = None.
Proof.
  intros Hk H. induction H as [|c s Hc Hs IH]; simpl.
  - apply Hk. constructor.
  - rewrite IH. assert (E : k (c :: s) = None) by (apply Hk; constructor; auto).
    rewrite E. destruct (p c); reflexivity.
Qed.

(** A pattern that starts with [c+] and one character of a class does not
    match where no character is of that class. *)
Lemma match_here_needs (p q : N -> bool) (rest : list Re.item) (s : str) :
  Forall (fun c => q c = false) s ->
  Re.match_here (Re.PlusG p :: Re.Cls q :: rest) s = None.
Proof.
  intros H. simpl. destruct H as [|c s Hc Hs]; [reflexivity|].
  destruct (p c); [|reflexivity].
  apply star_greedy_none with (Q := fun c => q c = false); [|exact Hs].
  intros s' [|d s'' Hd _]; [reflexivity|]. rewrite Hd. reflexivity.
Qed.

Lemma sub_delete_no_paren (s : str) :
  no_paren s -> Re.sub_delete Re.url_annotation s 0 = s.
Proof.
  intros H. induction H as [|c s Hc Hs IH]; [reflexivity|].
  assert (Hq : Forall (fun c => Re.chr "(" c = false) (c :: s)).
  { constructor; [apply Hc|]. eapply Forall_impl; [|exact Hs].
    simpl. tauto. }
  cbn [Re.sub_delete]. unfold Re.url_annotation at 1.
  rewrite (match_here_needs _ _ _ Hq). f_equal. exact IH.
Qed.

Lemma no_paren_lstrip (s : str) : no_paren s -> no_paren (lstrip s).
Proof.
  intros H. induction H as [|c s Hc Hs IH]; simpl; [constructor|].
  destruct (isspace c); [exact IH | constructor; assumption].
Qed.

Lemma no_paren_strip (s : str) : no_paren s -> no_paren (strip s).
Proof.
  intros H. unfold strip, rstrip, no_paren.
  apply Forall_rev. apply no_paren_lstrip. apply Forall_rev.
  apply no_paren_lstrip. exact H.
Qed.

Lemma no_paren_split (s current : str) :
  no_paren s -> no_paren current ->
  Forall no_paren (split_commas s current).
Proof.
  intros H; revert current; induction H as [|c s Hc Hs IH]; intros cur Hcur;
    simpl.
  - constructor; [exact Hcur | constructor].
  - destruct (Re.chr "," c).
    + constructor; [exact Hcur | apply IH; constructor].
    + apply IH. apply Forall_app. split; [exact Hcur|].
      constructor; [exact Hc | constructor].
Qed.

(** Without parentheses the scanner cuts at every comma. *)
Lemma scan_relations_no_paren (s : str) (targets : list str) (current : str) :
  no_paren s ->
  (let '(ts, cur) := scan_relations s targets current 0 in
   if nonempty (strip cur) then ts ++ [strip cur] else ts)
  = targets ++ filter nonempty (map strip (split_commas s current)).
Proof.
  intros H; revert targets current.
  induction H as [|c s [Hc1 Hc2] Hs IH]; intros targets current.
  - simpl. destruct (nonempty (strip current)); [reflexivity|].
    rewrite app_nil_r. reflexivity.
  - cbn [scan_relations split_commas]. rewrite Hc1, Hc2.
    destruct (Re.chr "," c); cbn [andb Z.eqb].
    + rewrite IH. cbn [map filter].
      destruct (nonempty (strip current)); [|reflexivity].
      rewrite <- app_assoc. reflexivity.
    + apply IH.
Qed.

(** X4: on a text without parentheses the relation parser is comma
    splitting: the pieces between the commas, trimmed, the empty ones
    dropped. *)
Theorem parse_relations_no_paren (raw_str : str) :
  no_paren raw_str ->
  parse_relations raw_str
  = filter nonempty (map strip (split_commas raw_str [])).
Proof.
  intros H. unfold parse_relations.
  pose proof (scan_relations_no_paren [] [] H) as E.
  destruct (scan_relations raw_str [] [] 0) as [ts cur].
  cbn [app] in E. rewrite E. clear E ts cur.
  pose proof (no_paren_split H (Forall_nil _)) as Hp.
  induction Hp as [|x l Hx Hl IH]; [reflexivity|].
  cbn [map filter]. destruct (nonempty (strip x)) eqn:Ex; [|exact IH].
  assert (Hc : clean_target (strip x) = strip x).
  { unfold clean_target.
    rewrite sub_delete_no_paren by (apply no_paren_strip; exact Hx).
    apply strip_idem. }
  cbn [map filter]. rewrite Hc, Ex, IH. reflexivity.
Qed.

Lemma parse_relations_no_paren_witness :
  no_paren (u " A , ,B C,")
  /\ parse_relations (u " A , ,B C,") = [u "A"; u "B C"].
Proof.
  assert (H : no_paren (u " A , ,B C,"))
    by (vm_compute; repeat constructor).
  split; [exact H|].
  rewrite (@parse_relations_no_paren (u " A , ,B C,") H).
  vm_compute. reflexivity.
Defined.

(* ================================================================= *)
(** ** The node set and the degree counts *)

Section LoaderFacts.
Context {F : Type} {FO : FloatOps F} {L : Library F}.

Lemma keys_dict_set {V} (d : dict V) k v :
  keys (dict_set d k v) = if dict_mem d k then keys d else keys d ++ [k].
Proof.
  unfold keys, dict_mem. induction d as [|[k0 v0] d IH]; simpl; [reflexivity|].
  destruct (str_eqb k0 k); simpl; [reflexivity|].
  rewrite IH. destruct (dict_get d k); reflexivity.
Qed.

Lemma keys_dict_mem {V} (d : dict V) k : In k (keys d) -> dict_mem d k = true.
Proof.
  unfold keys. intros H. apply in_map_iff in H as [[k0 v] [E Hin]].
  simpl in E; subst. eapply In_dict_mem; eauto.
Qed.

(** The names under which nodes are stored are distinct and not empty. *)
Lemma load_rows_names cols (rows : list row) (st st' : @load_state F) :
  load_rows cols st rows = Ok st' ->
  NoDup (keys (nodes st))
  /\ (forall k, In k (keys (nodes st)) -> nonempty k = true) ->
  NoDup (keys (nodes st'))
  /\ (forall k, In k (keys (nodes st')) -> nonempty k = true).
Proof.
  revert st; induction rows as [|r rows IH]; intros st; simpl.
  - intros H; inversion H; auto.
  - intros H Hst. apply bind_Ok in H as [st1 [H1 H2]].
    apply (IH st1 H2). clear IH H2.
    apply load_row_Ok in H1. cbv zeta in H1.
    destruct H1 as [[_ ->]|[Hne [n [_ [_ [Hnodes _]]]]]]; [exact Hst|].
    destruct Hst as [Hnd Hk]. rewrite Hnodes, keys_dict_set.
    destruct (dict_mem (nodes st) (stripped_cell r (name_key cols))) eqn:Hm;
      [auto|].
    split.
    + apply NoDup_app; [exact Hnd | repeat constructor; simpl; tauto |].
      intros k Hin [<-|[]]. apply keys_dict_mem in Hin. congruence.
    + intros k Hin. apply in_app_or in Hin as [Hin|[<-|[]]]; auto.
Qed.

(** X5: the nodes that the loader returns have pairwise distinct names,
    and no name is empty. *)
Theorem load_network_names_distinct csv_file (ns : list (node F)) edges :
  load_network csv_file = Ok (ns, edges) ->
  NoDup (map (@n_name F) ns)
  /\ (forall n, In n ns -> nonempty (n_name n) = true).
Proof.
  unfold load_network. destruct csv_file as [records|]; [|discriminate].
  intros H. apply bind_Ok in H as [st [Hst H]]. inversion H; subst; clear H.
  pose proof (first_pass_consistent _ Hst) as Hc.
  assert (Hn : NoDup (keys (nodes st))
               /\ (forall k, In k (keys (nodes st)) -> nonempty k = true)).
  { eapply load_rows_names; [exact Hst|]. simpl. split; [constructor|tauto]. }
  destruct Hn as [Hnd Hk].
  rewrite <- (consistent_names (build_edges st) Hc) in Hnd, Hk.
  split; [exact Hnd|].
  intros n Hin. apply Hk. apply in_map. exact Hin.
Qed.

Lemma last_opt_None {A} (l : list A) : last_opt l = None <-> l = [].
Proof.
  split; [|intros ->; reflexivity].
  destruct l as [|a l] using rev_ind; [reflexivity|].
  rewrite last_opt_snoc. discriminate.
Qed.

(** X6: a name is the name of a returned node exactly when it is not empty
    and is the trimmed identity cell of some row. *)
Theorem load_network_names records (ns : list (node F)) edges :
  load_network (Some records) = Ok (ns, edges) ->
  forall name,
    In name (map (@n_name F) ns)
    <-> exists r,
          In r (dict_rows records)
          /\ named (resolve_columns (fieldnames records)) name r = true.
Proof.
  unfold load_network. intros H name.
  apply bind_Ok in H as [st [Hst H]]. inversion H; subst; clear H.
  pose proof (first_pass_consistent _ Hst) as Hc.
  rewrite (consistent_names (build_edges st) Hc).
  destruct (load_rows_lookup _ _ Hst name) as [_ [_ Hn]].
  unfold last_row in Hn.
  set (cols := resolve_columns (fieldnames records)) in *.
  split.
  - intros Hin. apply keys_dict_mem in Hin. unfold dict_mem in Hin.
    destruct (dict_get (nodes st) name); [|discriminate].
    destruct (filter (named cols name) (dict_rows records)) as [|r l] eqn:E.
    { discriminate. }
    exists r. apply filter_In. rewrite E. left. reflexivity.
  - intros [r Hr]. apply filter_In in Hr.
    destruct (last_opt (filter (named cols name) (dict_rows records))) eqn:E.
    + apply dict_mem_keys. unfold dict_mem.
      destruct (dict_get (nodes st) name); [reflexivity|discriminate].
    + apply last_opt_None in E. rewrite E in Hr. destruct Hr.
Qed.

Lemma indicator_sum (x : str) (ks : list str) :
  NoDup ks -> In x ks ->
  fold_right Z.add 0%Z
    (map (fun k => if str_eqb x k then 1%Z else 0%Z) ks) = 1%Z.
Proof.
  intros Hnd. induction Hnd as [|k ks Hnin Hnd IH]; simpl; [tauto|].
  intros [->|Hin].
  - rewrite str_eqb_refl.
    assert (E : fold_right Z.add 0%Z
                  (map (fun k => if str_eqb x k then 1%Z else 0%Z) ks) = 0%Z).
    { clear IH Hnd. induction ks as [|k ks IH]; simpl; [reflexivity|].
      destruct (str_eqb x k) eqn:E.
      - apply str_eqb_eq in E. subst. exfalso. apply Hnin. left. reflexivity.
      - apply IH. intros H. apply Hnin. right. exact H. }
    rewrite E. reflexivity.
  - destruct (str_eqb x k) eqn:E.
    + apply str_eqb_eq in E. subst. contradiction.
    + apply IH. exact Hin.
Qed.

(** Every edge is counted once, at the node that its end names. *)
Lemma count_edges_sum (field : edge -> str) (ks : list str) edges :
  NoDup ks ->
  (forall e, In e edges -> In (field e) ks) ->
  fold_right Z.add 0%Z (map (fun k => count_edges field k edges) ks)
  = Z.of_nat (List.length edges).
Proof.
  intros Hnd. induction edges as [|e edges IH]; intros Hin.
  - unfold count_edges. simpl. clear Hnd Hin.
    induction ks as [|k ks IHks]; simpl; [reflexivity | exact IHks].
  - assert (E : forall k,
               count_edges field k (e :: edges)
               = ((if str_eqb (field e) k then 1 else 0)
                  + count_edges field k edges)%Z).
    { intros k. unfold count_edges. simpl.
      destruct (str_eqb (field e) k); simpl List.length; lia. }
    rewrite (map_ext _ _ E).
    assert (S : forall (f g : str -> Z) l,
               fold_right Z.add 0%Z (map (fun k => (f k + g k)%Z) l)
               = (fold_right Z.add 0 (map f l)
                  + fold_right Z.add 0 (map g l))%Z).
    { intros f g l. induction l as [|a l IHl]; simpl; [reflexivity|].
      rewrite IHl. lia. }
    rewrite S, IH, indicator_sum; simpl List.length; auto with datatypes.
    lia.
Qed.

(** X7: over the returned nodes, the required-by counts add up to the
    number of edges, and so do the depends-on counts. *)
Theorem load_network_degree_sum csv_file (ns : list (node F)) edges :
  load_network csv_file = Ok (ns, edges) ->
  total_count (@n_req_direct F) ns = Z.of_nat (List.length edges)
  /\ total_count (@n_dep_direct F) ns = Z.of_nat (List.length edges).
Proof.
  unfold load_network. destruct csv_file as [records|]; [|discriminate].
  intros H. apply bind_Ok in H as [st [Hst H]]. inversion H; subst; clear H.
  pose proof (first_pass_consistent _ Hst) as Hc.
  assert (Hnd : NoDup (keys (nodes st))).
  { eapply load_rows_names; [exact Hst|]. simpl. split; [constructor|tauto]. }
  assert (Hcl : forall e, In e (build_edges st) ->
                  In (e_source e) (keys (nodes st))
                  /\ In (e_target e) (keys (nodes st))).
  { intros e He. destruct (build_edges_closed e Hc He).
    split; apply dict_mem_keys; assumption. }
  assert (Hmap : forall (field : edge -> str),
             map (fun n : node F => count_edges field (n_name n) (build_edges st))
               (values (nodes st))
             = map (fun k => count_edges field k (build_edges st))
                 (keys (nodes st))).
  { intros field. destruct Hc as [Hn _]. unfold values, keys.
    rewrite !map_map. apply map_ext_in. intros [k n] Hin. simpl.
    rewrite (Hn k n Hin). reflexivity. }
  unfold total_count. rewrite !map_map. simpl.
  rewrite (Hmap e_source), (Hmap e_target).
  split; apply count_edges_sum; auto; intros e He; apply (Hcl e He).
Qed.



Lemma last_opt_cons {A} (a : A) (l : list A) :
  last_opt (a :: l) = match last_opt l with Some b => Some b | None => Some a end.
Proof.
  destruct l as [|b l] using rev_ind; [reflexivity|].
  rewrite app_comm_cons, !last_opt_snoc. reflexivity.
Qed.

Lemma build_header_map_get (hs : list str) (m : dict str) (key : str) :
  dict_get (build_header_map hs m) key
  = match last_opt (filter (fun h => str_eqb (normalize_key h) key) hs) with
    | Some h => Some h
    | None => dict_get m key
    end.
Proof.
  revert m; induction hs as [|h hs IH]; intros m; simpl; [reflexivity|].
  rewrite IH, dict_get_set.
  destruct (str_eqb (normalize_key h) key); [|reflexivity].
  rewrite last_opt_cons.
  destruct (last_opt (filter _ hs)); reflexivity.
Qed.

(** X9: the header found for a normalized column name is the last header
    of the file that normalizes to it: of two columns with the same
    normalized name, the later one is read. *)
Theorem header_map_last_wins (hs : list str) (key : str) :
  dict_get (build_header_map hs []) key
  = last_opt (filter (fun h => str_eqb (normalize_key h) key) hs).
Proof.
  rewrite build_header_map_get.
  destruct (last_opt (filter _ hs)); reflexivity.
Qed.

End LoaderFacts.

Section LoaderFactsSamples.
Import Samples Binary64.
#[local] Existing Instance Latin1.library.

Lemma load_repeated_name :
  load (Some csv_repeated_name) = Ok (nodes_repeated_name, edges_repeated_name).
Proof. vm_compute. reflexivity. Qed.

Lemma load_network_names_distinct_witness :
  load (Some csv_repeated_name) = Ok (nodes_repeated_name, edges_repeated_name)
  /\ NoDup (map (@n_name float) nodes_repeated_name)
  /\ (forall n, In n nodes_repeated_name -> nonempty (n_name n) = true).
Proof.
  split; [exact load_repeated_name|].
  exact (load_network_names_distinct (Some csv_repeated_name)
           load_repeated_name).
Defined.

Lemma load_network_names_witness :
  load (Some csv_repeated_name) = Ok (nodes_repeated_name, edges_repeated_name)
  /\ (In (u "A") (map (@n_name float) nodes_repeated_name)
      <-> exists r,
            In r (dict_rows csv_repeated_name)
            /\ named (resolve_columns (fieldnames csv_repeated_name))
                 (u "A") r = true).
Proof.
  split; [exact load_repeated_name|].
  exact (load_network_names csv_repeated_name load_repeated_name (u "A")).
Defined.

Lemma load_network_degree_sum_witness :
  load (Some csv_repeated_name) = Ok (nodes_repeated_name, edges_repeated_name)
  /\ total_count (@n_req_direct float) nodes_repeated_name
     = Z.of_nat (List.length edges_repeated_name)
  /\ total_count (@n_dep_direct float) nodes_repeated_name
     = Z.of_nat (List.length edges_repeated_name).
Proof.
  split; [exact load_repeated_name|].
  exact (load_network_degree_sum (Some csv_repeated_name) load_repeated_name).
Defined.


Lemma load_network_full_rows_witness :
  exists ns edges, load (Some (header_two :: records_full)) = Ok (ns, edges).
Proof.
  apply (@load_network_full_rows float Binary64.ops Latin1.library
           header_two records_full).
  intros record [<-|[<-|[<-|[]]]]; simpl; auto.
Defined.

End LoaderFactsSamples.

(* ================================================================= *)
(** ** The spring pass *)

Section SpringFacts.
Context {F : Type} {FO : FloatOps F}.

Lemma find_node_None name (ns : list (node F)) i :
  ~ In name (map (@n_name F) ns) -> find_node name ns i = None.
Proof.
  revert i; induction ns as [|n ns IH]; intros i H; simpl; [reflexivity|].
  destruct (str_eqb (n_name n) name) eqn:E.
  - apply str_eqb_eq in E. exfalso. apply H. left. exact E.
  - apply IH. intros Hin. apply H. right. exact Hin.
Qed.

(** X13: an edge one end of which names no node of the list is skipped by
    the spring pass: no position changes. *)
Theorem spring_step_skips_unknown (ns : list (node F)) (e : edge) :
  ~ In (e_source e) (map (@n_name F) ns)
  \/ ~ In (e_target e) (map (@n_name F) ns) ->
  spring_step ns e = ns.
Proof.
  intros [H|H]; unfold spring_step; rewrite (@find_node_None _ _ 0 H).
  - reflexivity.
  - destruct (find_node (e_source e) ns 0) as [[si source]|]; reflexivity.
Qed.

Lemma nth_error_update_Some {A} (l : list A) i j a b :
  nth_error l j = Some b -> exists c, nth_error (update l i a) j = Some c.
Proof.
  revert i j; induction l as [|x l IH]; intros i j; [destruct j; discriminate|].
  destruct i as [|i], j as [|j]; simpl; eauto.
Qed.

End SpringFacts.

Section SpringEnds.
Context {F : Type} {FO : FloatOps F}.

Lemma find_node_name name (ns : list (node F)) i j (n : node F) :
  find_node name ns i = Some (j, n) -> n_name n = name.
Proof.
  revert i; induction ns as [|m ns IH]; intros i; simpl; [discriminate|].
  destruct (str_eqb (n_name m) name) eqn:E.
  - intros H; inversion H; subst. apply str_eqb_eq. exact E.
  - apply IH.
Qed.

Lemma nth_error_update_other {A} (l : list A) i j a :
  i <> j -> nth_error (update l i a) j = nth_error l j.
Proof.
  revert i j; induction l as [|x l IH]; intros [|i] [|j] H; simpl;
    try reflexivity; try contradiction.
  apply IH. intros E. apply H. rewrite E. reflexivity.
Qed.

Lemma spring_step_keeps_others (ns : list (node F)) (e : edge) j (n : node F) :
  nth_error ns j = Some n ->
  e_source e <> n_name n -> e_target e <> n_name n ->
  nth_error (spring_step ns e) j = Some n.
Proof.
  intros Hj Hs Ht. unfold spring_step.
  destruct (find_node (e_source e) ns 0) as [[si source]|] eqn:Es;
    [|exact Hj].
  destruct (find_node (e_target e) ns 0) as [[ti target]|] eqn:Et;
    [|exact Hj].
  pose proof (find_node_name _ _ _ Es) as Ns.
  pose proof (find_node_name _ _ _ Et) as Nt.
  apply find_node_nth in Es as [ks [-> Hks]].
  apply find_node_nth in Et as [kt [-> Hkt]]. simpl.
  assert (Dks : ks <> j).
  { intros ->. rewrite Hj in Hks. inversion Hks; subst. auto. }
  assert (Dkt : kt <> j).
  { intros ->. rewrite Hj in Hkt. inversion Hkt; subst. auto. }
  match goal with
  | |- context [nth_error ?l kt] => destruct (nth_error l kt)
  end.
  - rewrite !nth_error_update_other by assumption. exact Hj.
  - rewrite nth_error_update_other by assumption. exact Hj.
Qed.

(** X12: the spring pass writes only nodes that the edges name: a node
    whose name is neither the source nor the target of any edge comes out
    of the spring pass at the same place of the list with every field,
    position included, as it was. *)
Theorem spring_pass_keeps_others (ns : list (node F)) (edges : list edge)
  (j : nat) (n : node F) :
  nth_error ns j = Some n ->
  (forall e, In e edges -> e_source e <> n_name n /\ e_target e <> n_name n) ->
  nth_error (spring_pass ns edges) j = Some n.
Proof.
  unfold spring_pass. revert ns; induction edges as [|e edges IH];
    intros ns Hj He; simpl; [exact Hj|].
  apply IH.
  - destruct (He e (or_introl eq_refl)) as [Hs Ht].
    apply spring_step_keeps_others; assumption.
  - intros e' Hin. apply He. right. exact Hin.
Qed.

End SpringEnds.

Section SpringSamples.
Import Samples.

Lemma spring_step_skips_unknown_witness :
  @spring_step float Binary64.ops three_nodes edge_to_nowhere = three_nodes.
Proof.
  apply (@spring_step_skips_unknown float Binary64.ops three_nodes
           edge_to_nowhere).
  right. vm_compute. intros [H|[H|[H|[]]]]; discriminate.
Defined.

Lemma spring_pass_keeps_others_witness :
  nth_error (@spring_pass float Binary64.ops three_nodes edge_AB) 2
  = nth_error three_nodes 2.
Proof.
  apply (@spring_pass_keeps_others float Binary64.ops three_nodes edge_AB 2).
  - reflexivity.
  - intros e [<-|[]]. split; vm_compute; discriminate.
Defined.

End SpringSamples.

(* ================================================================= *)
(** ** The serializer and the whole run *)

Section ExportFacts.
Context {F : Type} {FO : FloatOps F}.

Lemma max_req_direct_Ok (nodes : list (node F)) :
  Exists (fun r => (0 < r)%Z) (map (@n_req_direct F) nodes) ->
  exists m, max_req_direct nodes = Ok m.
Proof.
  intros H. unfold max_req_direct.
  apply Exists_exists in H as [r [Hin Hr]].
  assert (Hf : In r (filter (fun r => (0 <? r)%Z) (map (@n_req_direct F) nodes))).
  { apply filter_In. split; [exact Hin|]. apply Z.ltb_lt. exact Hr. }
  destruct (filter _ _) as [|z zs]; [destruct Hf|]. simpl. eauto.
Qed.

Lemma all_metrics_Ok (nodes rest : list (node F)) (m : Z) :
  nodes <> [] ->
  max_req_direct nodes = Ok m ->
  Forall (fun d => (0 <= d)%Z) (map (@n_dep_direct F) rest) ->
  exists ms,
    all_metrics nodes rest = Ok ms
    /\ map fst ms = rest
    /\ (forall n mt, In (n, mt) ms ->
          network_centrality mt = (n_req_direct n * n_dep_direct n)%Z
          /\ total_connections mt = (n_req_direct n + n_dep_direct n)%Z).
Proof.
  intros Hne Hmax. induction rest as [|n rest IH]; intros Hdep; simpl.
  - exists []. split; [reflexivity|]. split; [reflexivity|].
    intros n mt [].
  - inversion Hdep as [|d ds Hd Hds]; subst.
    destruct (IH Hds) as [ms [E [Hfst Hms]]].
    unfold node_metrics.
    destruct (Z.eqb_spec (1 + n_dep_direct n) 0) as [E0|_]; [lia|].
    destruct nodes as [|n0 nodes']; [contradiction|].
    rewrite Hmax. simpl. rewrite E. simpl.
    eexists. split; [reflexivity|]. split; [simpl; rewrite Hfst; reflexivity|].
    intros n' mt [H|H]; [inversion H; subst; simpl; auto | eauto].
Qed.

Lemma export_json_Ok_counts (nodes : list (node F)) edges :
  nodes = [] \/ Exists (fun r => (0 < r)%Z) (map (@n_req_direct F) nodes) ->
  Forall (fun d => (0 <= d)%Z) (map (@n_dep_direct F) nodes) ->
  exists ms,
    export_json nodes edges
    = Ok (Document ms edges
            (Metadata LAYOUT ITERATIONS SPRING_LENGTH REPULSION_STRENGTH
               (List.length nodes) (List.length edges)))
    /\ map fst ms = nodes
    /\ (forall n mt, In (n, mt) ms ->
          network_centrality mt = (n_req_direct n * n_dep_direct n)%Z
          /\ total_connections mt = (n_req_direct n + n_dep_direct n)%Z).
Proof.
  intros [->|Hex] Hdep.
  - exists []. split; [reflexivity|]. split; [reflexivity|].
    intros n mt [].
  - assert (Hne : nodes <> []) by (intros ->; inversion Hex).
    destruct (max_req_direct_Ok _ Hex) as [m Hm].
    destruct (@all_metrics_Ok nodes nodes m Hne Hm Hdep) as [ms [E [Hfst Hms]]].
    exists ms. unfold export_json. rewrite E. simpl. auto.
Qed.

Lemma export_json_raises_counts (nodes : list (node F)) edges :
  nodes <> [] ->
  Forall (fun r => (r <= 0)%Z) (map (@n_req_direct F) nodes) ->
  Forall (fun d => (0 <= d)%Z) (map (@n_dep_direct F) nodes) ->
  export_json nodes edges = Raise ValueError.
Proof.
  intros Hne Hreq Hdep. destruct nodes as [|n rest]; [contradiction|].
  apply export_json_no_positive_raises.
  - intros m Hin. rewrite Forall_forall in Hreq. apply Hreq.
    apply in_map. exact Hin.
  - inversion Hdep; subst. lia.
Qed.

(** X14: on nodes whose depends-on counts are not negative, the serializer
    returns exactly when the list is empty or some node has a positive
    required-by count; the document then holds the nodes in their order,
    the edges as given and the two totals, with centrality the product
    and total connections the sum of the two counts of each node. *)
Theorem export_json_outcome (nodes : list (node F)) edges :
  (forall n, In n nodes -> (0 <= n_dep_direct n)%Z) ->
  (nodes <> [] /\ (forall n, In n nodes -> (n_req_direct n <= 0)%Z) ->
   export_json nodes edges = Raise ValueError)
  /\ (nodes = [] \/ (exists n, In n nodes /\ (0 < n_req_direct n)%Z) ->
      exists doc,
        export_json nodes edges = Ok doc
        /\ map fst (doc_nodes doc) = nodes
        /\ doc_edges doc = edges
        /\ md_total_nodes (doc_metadata doc) = List.length nodes
        /\ md_total_edges (doc_metadata doc) = List.length edges
        /\ (forall n mt, In (n, mt) (doc_nodes doc) ->
              network_centrality mt = (n_req_direct n * n_dep_direct n)%Z
              /\ total_connections mt
                 = (n_req_direct n + n_dep_direct n)%Z)).
Proof.
  intros Hdep.
  assert (Hd : Forall (fun d => (0 <= d)%Z) (map (@n_dep_direct F) nodes)).
  { apply Forall_forall. intros d Hin.
    apply in_map_iff in Hin as [n [<- Hin]]. auto. }
  split.
  - intros [Hne Hreq]. apply export_json_raises_counts; auto.
    apply Forall_forall. intros r Hin.
    apply in_map_iff in Hin as [n [<- Hin]]. auto.
  - intros H.
    destruct (@export_json_Ok_counts nodes edges) as [ms [E [Hfst Hms]]];
      [|exact Hd|].
    + destruct H as [H|[n [Hin Hn]]]; [left; exact H | right].
      apply Exists_exists. exists (n_req_direct n). split; [|exact Hn].
      apply in_map. exact Hin.
    + eexists. split; [exact E|]. simpl. auto.
Qed.

End ExportFacts.

Section RunFacts.
Context {F : Type} {FO : FloatOps F} {L : Library F}.

(** What the loader guarantees about the counts. *)
Lemma load_network_counts csv_file (ns : list (node F)) edges :
  load_network csv_file = Ok (ns, edges) ->
  Forall (fun d => (0 <= d)%Z) (map (@n_dep_direct F) ns)
  /\ (edges = [] ->
      Forall (fun r => (r <= 0)%Z) (map (@n_req_direct F) ns))
  /\ (edges <> [] ->
      Exists (fun r => (0 < r)%Z) (map (@n_req_direct F) ns)).
Proof.
  unfold load_network. destruct csv_file as [records|]; [|discriminate].
  intros H. apply bind_Ok in H as [st [Hst H]]. inversion H; subst; clear H.
  pose proof (first_pass_consistent _ Hst) as Hc.
  rewrite !map_map. simpl. split; [|split].
  - apply Forall_forall. intros d Hin.
    apply in_map_iff in Hin as [n [<- _]]. unfold count_edges. lia.
  - intros ->. apply Forall_forall. intros r Hin.
    apply in_map_iff in Hin as [n [<- _]]. unfold count_edges. simpl. lia.
  - intros Hne. destruct (build_edges st) as [|e es] eqn:E; [contradiction|].
    assert (He : In e (build_edges st)) by (rewrite E; left; reflexivity).
    destruct (build_edges_closed e Hc He) as [Hs _].
    apply dict_mem_In in Hs as [n Hn].
    apply Exists_exists.
    exists (count_edges e_source (n_name n) (e :: es)). split.
    + apply in_map_iff. exists n. split; [reflexivity|].
      unfold values. apply in_map_iff. exists (e_source e, n). auto.
    + destruct Hc as [Hname _]. rewrite (Hname _ _ Hn).
      unfold count_edges. simpl. rewrite str_eqb_refl. simpl List.length. lia.
Qed.

(** The layout engine leaves the counts and the edges as they are. *)
Lemma apply_layout_counts (nodes : list (node F)) edges layout_type :
  map (@n_req_direct F) (fst (apply_layout nodes edges layout_type))
  = map (@n_req_direct F) nodes
  /\ map (@n_dep_direct F) (fst (apply_layout nodes edges layout_type))
     = map (@n_dep_direct F) nodes
  /\ List.length (fst (apply_layout nodes edges layout_type))
     = List.length nodes
  /\ snd (apply_layout nodes edges layout_type) = edges.
Proof.
  assert (H : map non_position (fst (apply_layout nodes edges layout_type))
              = map non_position nodes
              /\ snd (apply_layout nodes edges layout_type) = edges).
  { unfold apply_layout. destruct (str_eqb layout_type (u "force"));
      cbn [fst snd]; split; try reflexivity. apply iterate_frame. }
  destruct H as [H Hs]. split; [|split; [|split]]; [| | |exact Hs].
  - apply (f_equal (map (fun t => snd (fst t)))) in H.
    rewrite !map_map in H. exact H.
  - apply (f_equal (map (fun t => snd t))) in H.
    rewrite !map_map in H. exact H.
  - rewrite <- (length_map non_position), H. apply length_map.
Qed.

(** X15: the whole run (load, layout, both exports) on a file that loads.
    With nodes and no edge it ends in [ValueError], raised by the
    serializer; with no node at all, or with an edge, it completes, and the
    document counts the loaded nodes and holds the loaded edges. *)
Theorem main_outcome csv_file (ns : list (node F)) edges :
  load_network csv_file = Ok (ns, edges) ->
  (ns <> [] -> edges = [] -> main csv_file = Raise ValueError)
  /\ (ns = [] \/ edges <> [] ->
      exists doc lines,
        main csv_file = Ok (doc, lines)
        /\ doc_edges doc = edges
        /\ md_total_nodes (doc_metadata doc) = List.length ns
        /\ md_total_edges (doc_metadata doc) = List.length edges).
Proof.
  intros Hload. unfold main. rewrite Hload. cbn [bind fst snd].
  destruct (load_network_counts _ Hload) as [Hdep [Hzero Hpos]].
  destruct (apply_layout_counts ns edges LAYOUT) as [Hr [Hd [Hlen Hs]]].
  rewrite Hs. split.
  - intros Hne He.
    rewrite export_json_raises_counts; [reflexivity | | |].
    + intros E. apply (f_equal (@List.length _)) in E.
      rewrite Hlen in E. destruct ns; [contradiction | discriminate].
    + rewrite Hr. auto.
    + rewrite Hd. exact Hdep.
  - intros H.
    destruct (@export_json_Ok_counts F FO
                (fst (apply_layout ns edges LAYOUT)) edges)
      as [ms [E [Hfst Hms]]].
    + destruct H as [->|Hne].
      * left. destruct (fst (apply_layout [] edges LAYOUT)); [reflexivity|].
        discriminate.
      * right. rewrite Hr. auto.
    + rewrite Hd. exact Hdep.
    + rewrite E. cbn [bind]. eexists. eexists.
      split; [reflexivity|].
      cbn [doc_edges doc_metadata md_total_nodes md_total_edges].
      rewrite Hlen. auto.
Qed.

End RunFacts.

Section ExportSamples.
Import Samples Binary64.
#[local] Existing Instance Latin1.library.

Lemma export_json_outcome_witness :
  (forall n, In n (map (set_direct edge_AB) pair_3) ->
     (0 <= n_dep_direct n)%Z)
  /\ exists doc,
       export_json (map (set_direct edge_AB) pair_3)
         edge_AB = Ok doc
       /\ md_total_nodes (doc_metadata doc) = 2%nat
       /\ md_total_edges (doc_metadata doc) = 1%nat.
Proof.
  assert (H : forall n,
             In n (map (set_direct edge_AB) pair_3) ->
             (0 <= n_dep_direct n)%Z).
  { intros n [<-|[<-|[]]]; vm_compute; discriminate. }
  split; [exact H|].
  destruct (@export_json_outcome float Binary64.ops
              (map (set_direct edge_AB) pair_3) edge_AB H) as [_ Hok].
  destruct Hok as [doc [E [_ [_ [Hn [He _]]]]]].
  - right. eexists. split; [left; reflexivity|]. vm_compute. reflexivity.
  - exists doc. auto.
Defined.


Lemma main_outcome_witness :
  load (Some csv_repeated_name) = Ok (nodes_repeated_name, edges_repeated_name)
  /\ exists doc lines,
       main (Some csv_repeated_name) = Ok (doc, lines)
       /\ doc_edges doc = edges_repeated_name
       /\ md_total_nodes (doc_metadata doc) = List.length nodes_repeated_name
       /\ md_total_edges (doc_metadata doc) = List.length edges_repeated_name.
Proof.
  split; [exact load_repeated_name|].
  destruct (main_outcome (Some csv_repeated_name) load_repeated_name)
    as [_ H].
  apply H. right. discriminate.
Defined.

End ExportSamples.

(* ================================================================= *)
(** ** The geometry file *)

Section GeometryFacts.
Context {F : Type}.

Lemma build_node_map_get (nodes : list (node F)) i (m : dict nat) name j :
  dict_get (build_node_map nodes i m) name = Some j ->
  dict_get m name = Some j
  \/ exists k n,
       nth_error nodes k = Some n /\ n_name n = name /\ j = S (i + k).
Proof.
  revert i m; induction nodes as [|n rest IH]; intros i m; simpl; [auto|].
  intros H. apply IH in H as [H|[k [n' [Hk [Hn Hj]]]]].
  - rewrite dict_get_set in H.
    destruct (str_eqb (n_name n) name) eqn:E; [|auto].
    apply str_eqb_eq in E. inversion H; subst. right.
    exists 0%nat, n. repeat split. lia.
  - right. exists (S k), n'. repeat split; auto. lia.
Qed.

Lemma build_node_map_mem (nodes : list (node F)) i (m : dict nat) name :
  In name (map (@n_name F) nodes) \/ (exists k, dict_get m name = Some (S k)) ->
  exists k, dict_get (build_node_map nodes i m) name = Some (S k).
Proof.
  revert i m; induction nodes as [|n rest IH]; intros i m; simpl.
  - intros [[]|H]; exact H.
  - intros H. apply IH. rewrite dict_get_set.
    destruct (str_eqb (n_name n) name) eqn:E; [right; eauto|].
    destruct H as [[H|H]|H]; auto.
    apply str_eqb_eq in H. congruence.
Qed.

(** X16: a segment of the geometry file joins two vertices that exist:
    its two indices, counted from 1, are those of nodes of the list that
    bear the names of the two ends of one of the edges. *)
Theorem export_obj_segments (nodes : list (node F)) edges (s t : nat) :
  In (Segment s t) (export_obj nodes edges) ->
  exists e a b,
    In e edges
    /\ nth_error nodes (s - 1) = Some a /\ n_name a = e_source e
    /\ nth_error nodes (t - 1) = Some b /\ n_name b = e_target e
    /\ (1 <= s <= List.length nodes)%nat
    /\ (1 <= t <= List.length nodes)%nat.
Proof.
  unfold export_obj. intros H.
  apply in_app_or in H as [H|H].
  { simpl in H. destruct H as [H|[H|[H|[]]]]; discriminate. }
  apply in_app_or in H as [H|H].
  { apply in_map_iff in H as [n [H _]]. discriminate. }
  apply in_app_or in H as [H|H].
  { destruct H as [H|[]]. discriminate. }
  apply in_flat_map in H as [e [He H]]. unfold edge_line in H.
  destruct (dict_get _ (e_source e)) as [[|s']|] eqn:Es;
    try (simpl in H; contradiction).
  destruct (dict_get _ (e_target e)) as [[|t']|] eqn:Et;
    try (simpl in H; contradiction).
  destruct H as [H|[]]. inversion H; subst s t; clear H.
  apply build_node_map_get in Es as [Es|[ks [a [Ha [Hna Hs]]]]];
    [discriminate|].
  apply build_node_map_get in Et as [Et|[kt [b [Hb [Hnb Ht]]]]];
    [discriminate|].
  inversion Hs; inversion Ht; subst s' t'. simpl.
  rewrite !Nat.sub_0_r.
  pose proof (proj1 (nth_error_Some nodes ks)) as Ls.
  pose proof (proj1 (nth_error_Some nodes kt)) as Lt.
  rewrite Ha in Ls. rewrite Hb in Lt.
  exists e, a, b. repeat split; auto; try lia.
  - assert (ks < List.length nodes)%nat by (apply Ls; discriminate). lia.
  - assert (kt < List.length nodes)%nat by (apply Lt; discriminate). lia.
Qed.

(** X17: when both ends of every edge are names of nodes, the geometry
    file is the three heading lines, one vertex per node in the order of the
    list, a blank line, and exactly one segment per edge. *)
Theorem export_obj_closed (nodes : list (node F)) edges :
  (forall e, In e edges ->
     In (e_source e) (map (@n_name F) nodes)
     /\ In (e_target e) (map (@n_name F) nodes)) ->
  exists segments,
    export_obj nodes edges
    = [Title; Counts (List.length nodes) (List.length edges); Blank]
      ++ map (fun n => Vertex (n_x n) (n_y n) (n_z n)) nodes
      ++ [Blank] ++ segments
    /\ List.length segments = List.length edges
    /\ Forall (fun l => exists s t, l = Segment s t) segments.
Proof.
  intros H. unfold export_obj. eexists. split; [reflexivity|].
  induction edges as [|e edges IH]; simpl.
  - split; [reflexivity | constructor].
  - destruct IH as [IH1 IH2]. { intros e' He'. apply H. right. exact He'. }
    destruct (H e (or_introl eq_refl)) as [Hs Ht].
    destruct (@build_node_map_mem nodes 0 [] (e_source e) (or_introl Hs))
      as [ks Eks].
    destruct (@build_node_map_mem nodes 0 [] (e_target e) (or_introl Ht))
      as [kt Ekt].
    unfold edge_line at 1 3. rewrite Eks, Ekt. simpl. split.
    + rewrite IH1. reflexivity.
    + constructor; [eauto | exact IH2].
Qed.

End GeometryFacts.

Section GeometrySamples.
Import Samples.

Lemma export_obj_segments_witness :
  In (Segment 1 2) (@export_obj float pair_3 edge_AB)
  /\ exists e a b,
       In e edge_AB
       /\ nth_error pair_3 (1 - 1) = Some a /\ n_name a = e_source e
       /\ nth_error pair_3 (2 - 1) = Some b /\ n_name b = e_target e
       /\ (1 <= 1 <= List.length pair_3)%nat
       /\ (1 <= 2 <= List.length pair_3)%nat.
Proof.
  assert (H : In (Segment 1 2) (@export_obj float pair_3 edge_AB))
    by (vm_compute; auto 10).
  split; [exact H|].
  exact (@export_obj_segments float pair_3 edge_AB 1 2 H).
Defined.

Lemma export_obj_closed_witness :
  exists segments,
    @export_obj float pair_3 edge_AB
    = [Title; Counts (List.length pair_3) (List.length edge_AB); Blank]
      ++ map (fun n => Vertex (n_x n) (n_y n) (n_z n)) pair_3
      ++ [Blank] ++ segments
    /\ List.length segments = List.length edge_AB
    /\ Forall (fun l => exists s t, l = Segment s t) segments.
Proof.
  apply (@export_obj_closed float pair_3 edge_AB).
  intros e [<-|[]]. vm_compute. auto.
Defined.

End GeometrySamples.
